(** * mergecomplex: branch comparison and conflict-marker diff

    A shallow embedding of [internal/git/git.go]: the positional
    conflict-marker generator [generateDiff], the branch queries of
    [Control] and the download of changed files, with the properties the
    specification states about them. *)

From Stdlib Require Import Ascii NArith Lia.
From stdpp Require Import base option list gmap strings.

(** ** Go strings

    A Go string is a sequence of bytes; [string] (a list of [ascii]) is
    used for it, and [+:+] for [+] and [WriteString]. *)

Module GoString.

(** The byte [0x0A]. *)
Definition LF : ascii := ascii_of_nat 10.

(** The Go literal ["\n"]. *)
Definition nl : string := String LF "".

(** [strings.Split(s, sep)] for a separator of one byte: the pieces of
    [s] between the occurrences of [sep], in order; always one more
    piece than there are separators, so never an empty slice. *)
Fixpoint Split (s : string) (sep : ascii) : list string :=
  match s with
  | "" => [""]
  | String c rest =>
      if Ascii.eqb c sep then "" :: Split rest sep
      else match Split rest sep with
           | first :: others => String c first :: others
           | [] => [String c ""]
           end
  end.

(** [strings.Join(elems, sep)] for a separator of one byte. *)
Fixpoint Join (elems : list string) (sep : ascii) : string :=
  match elems with
  | [] => ""
  | [e] => e
  | e :: more => e +:+ String sep (Join more sep)
  end.

(** [strings.Contains(s, string(c))]. *)
Fixpoint ContainsByte (s : string) (c : ascii) : bool :=
  match s with
  | "" => false
  | String d rest => Ascii.eqb d c || ContainsByte rest c
  end.

(** The text of [lines], each followed by a newline. *)
Fixpoint unlines (lines : list string) : string :=
  match lines with
  | [] => ""
  | l :: more => (l +:+ nl) +:+ unlines more
  end.

End GoString.
Import GoString.

(** ** The conflict diff generator *)

Definition markerHead : string := "<<<<<<< HEAD".
Definition markerSep : string := "=======".
Definition markerEnd : string := ">>>>>>> branch".

(** One iteration of the loop of [generateDiff]: [result] is the
    [strings.Builder], [i] the line index. *)
Definition generateDiff_body (branchLines localLines : list string)
    (result : string) (i : nat) : string :=
  let branchLine := if i <? length branchLines then nth i branchLines "" else "" in
  let localLine := if i <? length localLines then nth i localLines "" else "" in
  if length branchLines <=? i then
    result +:+ (localLine +:+ nl)
  else if length localLines <=? i then
    result +:+ (branchLine +:+ nl)
  else if String.eqb branchLine localLine then
    result +:+ (localLine +:+ nl)
  else
    ((((result +:+ (markerHead +:+ nl))
         +:+ (localLine +:+ nl))
        +:+ (markerSep +:+ nl))
       +:+ (branchLine +:+ nl))
      +:+ (markerEnd +:+ nl).

(** The loop [for i := ...; i++] run over the indices [idxs] from the
    builder contents [result]. *)
Definition generateDiff_loop (branchLines localLines : list string)
    (idxs : list nat) (result : string) : string :=
  foldl (generateDiff_body branchLines localLines) result idxs.

(** [generateDiff]: [branchContent] is the base side (theirs),
    [localContent] the target side (ours). *)
Definition generateDiff (branchContent localContent : string) : string :=
  let branchLines := Split branchContent LF in
  let localLines := Split localContent LF in
  let maxLen := length branchLines in
  let maxLen := if maxLen <? length localLines then length localLines else maxLen in
  generateDiff_loop branchLines localLines (seq 0 maxLen) "".

(** The lines one iteration emits, without their newlines. *)
Definition emittedLines (branchLines localLines : list string) (i : nat)
    : list string :=
  match branchLines !! i, localLines !! i with
  | None, None => [""]
  | None, Some localLine => [localLine]
  | Some branchLine, None => [branchLine]
  | Some branchLine, Some localLine =>
      if String.eqb branchLine localLine then [localLine]
      else [markerHead; localLine; markerSep; branchLine; markerEnd]
  end.

(** The five-line conflict block, as text. *)
Definition conflictBlock (ours theirs : string) : string :=
  (markerHead +:+ nl) +:+ (ours +:+ nl) +:+ (markerSep +:+ nl)
    +:+ (theirs +:+ nl) +:+ (markerEnd +:+ nl).

(** ** The snapshot provider

    Repositories, references, commits, trees and files are go-git's
    ([github.com/go-git/go-git/v5]); the source only calls them.  A call
    returns a value or an error, of which the message is kept. *)

Inductive result (T : Type) : Type :=
| Ok (v : T)
| Err (msg : string).
Arguments Ok {T} v.
Arguments Err {T} msg.

Module merkletrie.

(** [merkletrie.Action], an integer: [Insert], [Delete] and [Modify] are 1,
    2 and 3, and the zero value is none of them. *)
Inductive Action : Set := NoAction | Insert | Delete | Modify.

#[global] Instance Action_eq_dec : EqDecision Action.
Proof. solve_decision. Defined.

End merkletrie.

Module object.

(** [object.TreeEntry]: name, file mode and hash of a tree node. *)
Record TreeEntry : Set := mkTreeEntry {
  EntryName : string;
  Mode : N;
  Hash : N
}.

(** [object.ChangeEntry]: [Name] is the full path of the node, [Tree] the
    address of its parent tree ([nil] in the zero value) and [Entry] the
    field [TreeEntry]. *)
Record ChangeEntry : Set := mkChangeEntry {
  Name : string;
  Tree : option N;
  Entry : TreeEntry
}.

(** [object.Change]: for an insertion [From] is the zero value, for a
    deletion [To] is. *)
Record Change : Set := mkChange {
  From : ChangeEntry;
  To : ChangeEntry
}.

#[global] Instance TreeEntry_eq_dec : EqDecision TreeEntry.
Proof. solve_decision. Defined.

#[global] Instance ChangeEntry_eq_dec : EqDecision ChangeEntry.
Proof. solve_decision. Defined.

(** [var empty ChangeEntry]. *)
Definition empty : ChangeEntry :=
  {| Name := ""; Tree := None;
     Entry := {| EntryName := ""; Mode := 0; Hash := 0 |} |}.

(** [Change.Action]: the kind of a change, read off which side is the
    zero value. *)
Definition Action (c : Change) : merkletrie.Action * option string :=
  if bool_decide (From c = empty) && bool_decide (To c = empty) then
    (merkletrie.NoAction, Some "malformed change: empty from and to")
  else if bool_decide (From c = empty) then (merkletrie.Insert, None)
  else if bool_decide (To c = empty) then (merkletrie.Delete, None)
  else (merkletrie.Modify, None).

End object.

(** The calls the source makes on the provider.  [Repository] is a
    non-nil [*git.Repository]; the comparison of two trees, [Tree_Diff], is
    the provider's own and is not looked into. *)
Class Provider : Type := {
  Repository : Type;
  Reference : Type;
  ReferenceIter : Type;
  CommitHash : Type;
  Commit : Type;
  Tree : Type;
  File : Type;
  (** [r.References()] *)
  Repository_References : Repository → result ReferenceIter;
  (** [refs.ForEach(cb)] for a callback that returns [nil]: the references
      handed to the callback, and the error that ended the iteration. *)
  ReferenceIter_ForEach : ReferenceIter → list Reference * option string;
  (** [r.Reference(name, resolved)] *)
  Repository_Reference : Repository → string → bool → result Reference;
  (** [r.CommitObject(h)] *)
  Repository_CommitObject : Repository → CommitHash → result Commit;
  (** [ref.Name()], [ref.Hash()] *)
  Reference_Name : Reference → string;
  Reference_Hash : Reference → CommitHash;
  (** [name.IsBranch()], [name.IsRemote()], [name.Short()] *)
  ReferenceName_IsBranch : string → bool;
  ReferenceName_IsRemote : string → bool;
  ReferenceName_Short : string → string;
  (** [commit.Tree()] *)
  Commit_Tree : Commit → result Tree;
  (** [t.Diff(to)] *)
  Tree_Diff : Tree → Tree → result (list object.Change);
  (** [t.File(path)] *)
  Tree_File : Tree → string → result File;
  (** [f.Contents()] *)
  File_Contents : File → result string
}.

(** The calls the source makes on the operating system ([os] and
    [path/filepath]), over a file system state [Fs]. *)
Class OS : Type := {
  Fs : Type;
  (** [os.RemoveAll(path)] *)
  os_RemoveAll : string → Fs → Fs * option string;
  (** [os.MkdirAll(path, perm)] *)
  os_MkdirAll : string → N → Fs → Fs * option string;
  (** [os.WriteFile(name, data, perm)] *)
  os_WriteFile : string → string → N → Fs → Fs * option string;
  (** [filepath.Join(a, b)], [filepath.Dir(path)] *)
  filepath_Join : string → string → string;
  filepath_Dir : string → string
}.

(** ** Errors and results of the queries *)

(** The errors [fmt.Errorf] builds in [git.go], one constructor a format
    string; [cause] is the message of the wrapped error. *)
Inductive error : Type :=
| ErrNotInitialized
| ErrReferences (cause : string)
| ErrIterate (cause : string)
| ErrReference (branch cause : string)
| ErrCommit (branch cause : string)
| ErrTree (branch cause : string)
| ErrCompare (cause : string)
| ErrReadFile (fileName cause : string)
| ErrContents (fileName cause : string)
| ErrMkdir (dir cause : string)
| ErrSave (destPath cause : string)
| ErrDeletedOrUnmodified
| ErrBaseContents (cause : string)
| ErrTargetContents (cause : string)
| ErrNotInDiff (fileName : string).

(** [err.Error()]. *)
Definition Error (e : error) : string :=
  match e with
  | ErrNotInitialized => "repositório não inicializado"
  | ErrReferences cause => "erro ao obter referências: " +:+ cause
  | ErrIterate cause => "erro ao iterar sobre as referências: " +:+ cause
  | ErrReference branch cause =>
      "erro ao obter referência da branch " +:+ branch +:+ ": " +:+ cause
  | ErrCommit branch cause =>
      "erro ao obter commit da branch " +:+ branch +:+ ": " +:+ cause
  | ErrTree branch cause =>
      "erro ao obter árvore da branch " +:+ branch +:+ ": " +:+ cause
  | ErrCompare cause => "erro ao comparar árvores: " +:+ cause
  | ErrReadFile fileName cause =>
      "erro ao ler arquivo " +:+ fileName +:+ ": " +:+ cause
  | ErrContents fileName cause =>
      "erro ao obter conteúdo de " +:+ fileName +:+ ": " +:+ cause
  | ErrMkdir dir cause => "erro ao criar diretório " +:+ dir +:+ ": " +:+ cause
  | ErrSave destPath cause =>
      "erro ao salvar arquivo " +:+ destPath +:+ ": " +:+ cause
  | ErrDeletedOrUnmodified => "arquivo foi deletado ou não modificado"
  | ErrBaseContents cause =>
      "erro ao obter conteúdo da branch base: " +:+ cause
  | ErrTargetContents cause =>
      "erro ao obter conteúdo da sua branch: " +:+ cause
  | ErrNotInDiff fileName =>
      "arquivo " +:+ fileName
        +:+ " não encontrado nas diferenças entre as branches"
  end.

(** What a call of a method [func (...) (T, error)] does: it returns its
    two values ([nil] is the empty slice or map), or it panics on a nil
    pointer dereference. *)
Inductive goret (T : Type) : Type :=
| Returns (v : T) (err : option error)
| Panics.
Arguments Returns {T} v err.
Arguments Panics {T}.

(** An intermediate stage of a method: a value to go on with, the error to
    return beside [nil], or a nil pointer dereference. *)
Inductive attempt (A : Type) : Type :=
| Got (a : A)
| Failed (e : error)
| NilDeref.
Arguments Got {A} a.
Arguments Failed {A} e.
Arguments NilDeref {A}.

(** [v, err := call; if err != nil { return nil, wrap(err) }]. *)
Definition try {A B : Type} (r : result A) (wrap : string → error)
    (k : A → attempt B) : attempt B :=
  match r with
  | Ok a => k a
  | Err msg => Failed (wrap msg)
  end.

Notation "x ←? r 'orfail' w ; k" := (try r w (λ x, k))
  (at level 20, r at level 100, w at level 9, k at level 200,
   only parsing, right associativity).

(** [type FileChange struct]; [Action] is ["added"], ["modified"] or
    ["deleted"]. *)
Record FileChange : Set := mkFileChange {
  Path : string;
  Action : string
}.

#[global] Instance FileChange_eq_dec : EqDecision FileChange.
Proof. solve_decision. Defined.

Section git.

Context {provider : Provider} {os : OS}.

(** [type Control struct]: [repository] is a pointer, [None] when nil.
    The field [progress] is read by [NewRepoRemote] only and is left out. *)
Record Control : Type := mkControl {
  repository : option Repository
}.

Definition IsInitialized (e : Control) : bool :=
  match repository e with Some _ => true | None => false end.

(** The body shared by the three listings: [keep] is the test the
    callback makes on [ref.Name()]. *)
Definition listReferences (e : Control) (keep : string → bool)
    : goret (list string) :=
  match repository e with
  | None => Returns [] (Some ErrNotInitialized)
  | Some r =>
      match Repository_References r with
      | Err msg => Returns [] (Some (ErrReferences msg))
      | Ok refs =>
          let '(visited, iterErr) := ReferenceIter_ForEach refs in
          let branches :=
            foldl (λ branches ref,
                     if keep (Reference_Name ref)
                     then branches ++ [ReferenceName_Short (Reference_Name ref)]
                     else branches) [] visited in
          match iterErr with
          | Some msg => Returns [] (Some (ErrIterate msg))
          | None => Returns branches None
          end
      end
  end.

Definition ListBranches (e : Control) : goret (list string) :=
  listReferences e ReferenceName_IsBranch.

Definition ListAllBranches (e : Control) : goret (list string) :=
  listReferences e
    (λ name, ReferenceName_IsBranch name || ReferenceName_IsRemote name).

Definition ListLocalBranches (e : Control) : goret (list string) :=
  ListBranches e.

Definition ListRemoteBranches (e : Control) : goret (list string) :=
  listReferences e ReferenceName_IsRemote.

(** The statements every comparison repeats, from the first
    [e.repository.Reference] to [targetTree.Diff(baseTree)]: they resolve
    the two branches to their trees and ask the provider for the changes.
    They do not test [e.repository] for nil: [Reference] reads a field of
    the repository, which panics on a nil pointer. *)
Definition compareTrees (repo : option Repository)
    (branchName branchBase : string)
    : attempt (Tree * Tree * list object.Change) :=
  match repo with
  | None => NilDeref
  | Some r =>
      targetRef ←? Repository_Reference r ("refs/heads/" +:+ branchName) true
        orfail (ErrReference branchName);
      baseRef ←? Repository_Reference r ("refs/heads/" +:+ branchBase) true
        orfail (ErrReference branchBase);
      targetCommit ←? Repository_CommitObject r (Reference_Hash targetRef)
        orfail (ErrCommit branchName);
      baseCommit ←? Repository_CommitObject r (Reference_Hash baseRef)
        orfail (ErrCommit branchBase);
      targetTree ←? Commit_Tree targetCommit orfail (ErrTree branchName);
      baseTree ←? Commit_Tree baseCommit orfail (ErrTree branchBase);
      changes ←? Tree_Diff targetTree baseTree orfail ErrCompare;
      Got (targetTree, baseTree, changes)
  end.

(** The loop of [GetModifiedFiles]. *)
Fixpoint GetModifiedFiles_loop (changes : list object.Change)
    (modifiedFiles : list string) : list string :=
  match changes with
  | [] => modifiedFiles
  | change :: rest =>
      match object.Action change with
      | (_, Some _) => GetModifiedFiles_loop rest modifiedFiles
      | (action, None) =>
          match action with
          | merkletrie.Insert =>
              GetModifiedFiles_loop rest
                (modifiedFiles ++ [object.Name (object.To change)])
          | merkletrie.Modify =>
              GetModifiedFiles_loop rest
                (modifiedFiles ++ [object.Name (object.To change)])
          | _ => GetModifiedFiles_loop rest modifiedFiles
          end
      end
  end.

(** [GetModifiedFiles]: no test of [e.repository]. *)
Definition GetModifiedFiles (e : Control) (branchName branchBase : string)
    : goret (list string) :=
  match compareTrees (repository e) branchName branchBase with
  | NilDeref => Panics
  | Failed err => Returns [] (Some err)
  | Got (_, _, changes) => Returns (GetModifiedFiles_loop changes []) None
  end.

(** The loop of [GetAllChangedFiles]. *)
Fixpoint GetAllChangedFiles_loop (changes : list object.Change)
    (changedFiles : list string) : list string :=
  match changes with
  | [] => changedFiles
  | change :: rest =>
      match object.Action change with
      | (_, Some _) => GetAllChangedFiles_loop rest changedFiles
      | (action, None) =>
          match action with
          | merkletrie.Insert =>
              GetAllChangedFiles_loop rest
                (changedFiles ++ [object.Name (object.To change)])
          | merkletrie.Modify =>
              GetAllChangedFiles_loop rest
                (changedFiles ++ [object.Name (object.To change)])
          | merkletrie.Delete =>
              GetAllChangedFiles_loop rest
                (changedFiles ++ [object.Name (object.From change)])
          | _ => GetAllChangedFiles_loop rest changedFiles
          end
      end
  end.

Definition GetAllChangedFiles (e : Control) (branchName baseBranch : string)
    : goret (list string) :=
  match repository e with
  | None => Returns [] (Some ErrNotInitialized)
  | Some _ =>
      match compareTrees (repository e) branchName baseBranch with
      | NilDeref => Panics
      | Failed err => Returns [] (Some err)
      | Got (_, _, changes) => Returns (GetAllChangedFiles_loop changes []) None
      end
  end.

(** The loop of [GetFileChanges]; [var fc FileChange] starts as the zero
    value and is appended whatever the [switch] did. *)
Fixpoint GetFileChanges_loop (changes : list object.Change)
    (fileChanges : list FileChange) : list FileChange :=
  match changes with
  | [] => fileChanges
  | change :: rest =>
      match object.Action change with
      | (_, Some _) => GetFileChanges_loop rest fileChanges
      | (action, None) =>
          let fc :=
            match action with
            | merkletrie.Insert =>
                {| Path := object.Name (object.To change); Action := "added" |}
            | merkletrie.Modify =>
                {| Path := object.Name (object.To change); Action := "modified" |}
            | merkletrie.Delete =>
                {| Path := object.Name (object.From change); Action := "deleted" |}
            | _ => {| Path := ""; Action := "" |}
            end in
          GetFileChanges_loop rest (fileChanges ++ [fc])
      end
  end.

Definition GetFileChanges (e : Control) (branchName baseBranch : string)
    : goret (list FileChange) :=
  match repository e with
  | None => Returns [] (Some ErrNotInitialized)
  | Some _ =>
      match compareTrees (repository e) branchName baseBranch with
      | NilDeref => Panics
      | Failed err => Returns [] (Some err)
      | Got (_, _, changes) => Returns (GetFileChanges_loop changes []) None
      end
  end.

(** The loop of [DownloadModifiedFiles], from the list [downloaded] and the
    file system [fs]: it gives the file system it leaves and the two values
    the method returns. *)
Fixpoint DownloadModifiedFiles_loop (targetTree : Tree) (destDir : string)
    (changes : list object.Change) (downloaded : list string) (fs : Fs)
    : Fs * (list string * option error) :=
  match changes with
  | [] => (fs, (downloaded, None))
  | change :: rest =>
      match object.Action change with
      | (_, Some _) =>
          DownloadModifiedFiles_loop targetTree destDir rest downloaded fs
      | (action, None) =>
          if bool_decide (action ≠ merkletrie.Insert)
             && bool_decide (action ≠ merkletrie.Modify)
          then DownloadModifiedFiles_loop targetTree destDir rest downloaded fs
          else
            let fileName := object.Name (object.To change) in
            match Tree_File targetTree fileName with
            | Err msg => (fs, (downloaded, Some (ErrReadFile fileName msg)))
            | Ok fileInTree =>
                match File_Contents fileInTree with
                | Err msg => (fs, (downloaded, Some (ErrContents fileName msg)))
                | Ok content =>
                    let destPath := filepath_Join destDir fileName in
                    match os_MkdirAll (filepath_Dir destPath) 493 fs with
                    | (fs, Some msg) =>
                        (fs, (downloaded, Some (ErrMkdir (filepath_Dir destPath) msg)))
                    | (fs, None) =>
                        match os_WriteFile destPath content 420 fs with
                        | (fs, Some msg) =>
                            (fs, (downloaded, Some (ErrSave destPath msg)))
                        | (fs, None) =>
                            DownloadModifiedFiles_loop targetTree destDir rest
                              (downloaded ++ [destPath]) fs
                        end
                    end
                end
            end
      end
  end.

(** [DownloadModifiedFiles]: [os.RemoveAll] comes first and its error is
    dropped; no test of [e.repository]. *)
Definition DownloadModifiedFiles (e : Control)
    (branchName branchBase destDir : string) (fs : Fs)
    : Fs * goret (list string) :=
  let fs := fst (os_RemoveAll destDir fs) in
  match compareTrees (repository e) branchName branchBase with
  | NilDeref => (fs, Panics)
  | Failed err => (fs, Returns [] (Some err))
  | Got (targetTree, _, changes) =>
      let '(fs, (downloaded, err)) :=
        DownloadModifiedFiles_loop targetTree destDir changes [] fs in
      (fs, Returns downloaded err)
  end.

(** The loop of [DiffSpecificFile] and the [return] after it. *)
Fixpoint DiffSpecificFile_loop (targetTree baseTree : Tree) (fileName : string)
    (changes : list object.Change) : goret (gmap string string) :=
  match changes with
  | [] => Returns ∅ (Some (ErrNotInDiff fileName))
  | change :: rest =>
      match object.Action change with
      | (_, Some _) => DiffSpecificFile_loop targetTree baseTree fileName rest
      | (action, None) =>
          if bool_decide (object.Name (object.To change) ≠ fileName)
          then DiffSpecificFile_loop targetTree baseTree fileName rest
          else if bool_decide (action ≠ merkletrie.Insert)
                  && bool_decide (action ≠ merkletrie.Modify)
          then Returns ∅ (Some ErrDeletedOrUnmodified)
          else
            let baseFile :=
              match Tree_File baseTree fileName with
              | Err _ => None
              | Ok baseFile => Some baseFile
              end in
            let readBase :=
              match baseFile with
              | None => Ok ""
              | Some baseFile => File_Contents baseFile
              end in
            match readBase with
            | Err msg => Returns ∅ (Some (ErrBaseContents msg))
            | Ok baseContent =>
                match Tree_File targetTree fileName with
                | Err msg => Returns ∅ (Some (ErrReadFile fileName msg))
                | Ok targetFile =>
                    match File_Contents targetFile with
                    | Err msg => Returns ∅ (Some (ErrTargetContents msg))
                    | Ok targetContent =>
                        let diff := generateDiff baseContent targetContent in
                        Returns {[ fileName := diff ]} None
                    end
                end
            end
      end
  end.

(** [DiffSpecificFile]: no test of [e.repository]. *)
Definition DiffSpecificFile (e : Control)
    (branchName branchBase fileName : string) : goret (gmap string string) :=
  match compareTrees (repository e) branchName branchBase with
  | NilDeref => Panics
  | Failed err => Returns ∅ (Some err)
  | Got (targetTree, baseTree, changes) =>
      DiffSpecificFile_loop targetTree baseTree fileName changes
  end.

End git.

(** ** The classification of the specification

    Section 4.3, step 4: Insert is Added with the new path, Modify is
    Modified with the new path, Delete is Deleted with the old path, and a
    record whose action cannot be determined is skipped. *)
Definition classifyRecord (change : object.Change) : option FileChange :=
  match object.Action change with
  | (merkletrie.Insert, None) =>
      Some {| Path := object.Name (object.To change); Action := "added" |}
  | (merkletrie.Modify, None) =>
      Some {| Path := object.Name (object.To change); Action := "modified" |}
  | (merkletrie.Delete, None) =>
      Some {| Path := object.Name (object.From change); Action := "deleted" |}
  | _ => None
  end.

(** The filter "AddedOrModified" of section 4.3, step 5. *)
Definition addedOrModified (fc : FileChange) : bool :=
  String.eqb (Action fc) "added" || String.eqb (Action fc) "modified".

(** A line without a newline in it. *)
Definition lineClean (l : string) : Prop := ContainsByte l LF = false.

(** ** A small repository to run the queries on

    Two branches whose trees are lists of path and content, a tree
    comparison that reports, as section 4.3 step 3 puts it, the changes
    "moving from base to target", and a file system that refuses to write
    the paths listed in [denied]. *)
Module Demo.

Definition tree : Type := list (string * string).

Definition lookupPath (t : tree) (path : string) : option string :=
  (λ found, snd (snd found)) <$> list_find (λ entry, fst entry = path) t.

Definition entryOf (path content : string) : object.ChangeEntry :=
  {| object.Name := path;
     object.Tree := Some 1%N;
     object.Entry := {| object.EntryName := path;
                        object.Mode := 33188;
                        object.Hash := N.of_nat (String.length content) + 1 |} |}.

Definition changesOf (target base : tree) : list object.Change :=
  flat_map (λ '(path, content),
              match lookupPath base path with
              | None => [object.mkChange object.empty (entryOf path content)]
              | Some old =>
                  if String.eqb old content then []
                  else [object.mkChange (entryOf path old) (entryOf path content)]
              end) target
  ++ flat_map (λ '(path, old),
                 match lookupPath target path with
                 | None => [object.mkChange (entryOf path old) object.empty]
                 | Some _ => []
                 end) base.

Definition dropPrefix (prefix name : string) : option string :=
  if String.prefix prefix name
  then Some (String.substring (String.length prefix)
               (String.length name - String.length prefix) name)
  else None.

#[export] Instance provider : Provider := {|
  Repository := list (string * tree);
  Reference := string * tree;
  ReferenceIter := list (string * tree);
  CommitHash := tree;
  Commit := tree;
  Tree := tree;
  File := string;
  Repository_References r := Ok r;
  ReferenceIter_ForEach refs := (refs, None);
  Repository_Reference r name _ :=
    match list_find (λ ref, fst ref = name) r with
    | Some (_, ref) => Ok ref
    | None => Err "reference not found"
    end;
  Repository_CommitObject _ h := Ok h;
  Reference_Name := fst;
  Reference_Hash := snd;
  ReferenceName_IsBranch := String.prefix "refs/heads/";
  ReferenceName_IsRemote := String.prefix "refs/remotes/";
  ReferenceName_Short name :=
    match dropPrefix "refs/heads/" name, dropPrefix "refs/remotes/" name with
    | Some short, _ => short
    | None, Some short => short
    | None, None => name
    end;
  Commit_Tree c := Ok c;
  Tree_Diff target base := Ok (changesOf target base);
  Tree_File t path :=
    match lookupPath t path with
    | Some content => Ok content
    | None => Err "file not found"
    end;
  File_Contents f := Ok f
|}.

Record disk : Type := mkDisk {
  files : gmap string string;
  denied : list string
}.

(** The directory part of a path: what comes before its last slash. *)
Fixpoint dirOf (path : string) : option string :=
  match path with
  | "" => None
  | String c rest =>
      match dirOf rest with
      | Some d => Some (String c d)
      | None => if Ascii.eqb c "/" then Some "" else None
      end
  end.

#[export] Instance os : OS := {|
  Fs := disk;
  os_RemoveAll path fs :=
    ({| files := filter (λ kv, ¬ String.prefix (path +:+ "/") (fst kv)) (files fs);
        denied := denied fs |}, None);
  os_MkdirAll _ _ fs := (fs, None);
  os_WriteFile name data _ fs :=
    if bool_decide (name ∈ denied fs) then (fs, Some "permission denied")
    else ({| files := <[ name := data ]> (files fs); denied := denied fs |}, None);
  filepath_Join a b := a +:+ "/" +:+ b;
  filepath_Dir path := default "." (dirOf path)
|}.

Definition baseTree : tree :=
  [ ("a.txt", "1"); ("keep.txt", "k"); ("old.txt", "o") ].

Definition targetTree : tree :=
  [ ("a.txt", "2"); ("keep.txt", "k"); ("newfile.txt", "hello") ].

Definition repo : list (string * tree) :=
  [ ("refs/heads/main", baseTree); ("refs/heads/feature", targetTree) ].

(** A bound handle and an unbound one. *)
Definition bound : Control := {| repository := Some repo |}.
Definition unbound : Control := {| repository := None |}.

(** A disk with one stale file under [out], on which [out/newfile.txt]
    cannot be written. *)
Definition disk0 : disk :=
  {| files := {[ "out/stale.txt" := "s" ]}; denied := [ "out/newfile.txt" ] |}.

(** What the two branches differ in. *)
Definition fileChanges : list FileChange :=
  [ {| Path := "a.txt"; Action := "modified" |};
    {| Path := "newfile.txt"; Action := "added" |};
    {| Path := "old.txt"; Action := "deleted" |} ].

End Demo.

(** ** The lines of a diff, side by side

    The lines [generateDiff] writes for the base lines [branchLines] and
    the target lines [localLines], read off the two lists together: a pair
    of equal lines gives the line, a pair of different lines the five
    lines of a conflict block, and what one side has beyond the other is
    copied. *)
Fixpoint mergeLines (branchLines localLines : list string) : list string :=
  match branchLines, localLines with
  | [], _ => localLines
  | _, [] => branchLines
  | branchLine :: branchLines', localLine :: localLines' =>
      (if String.eqb branchLine localLine then [localLine]
       else [markerHead; localLine; markerSep; branchLine; markerEnd])
      ++ mergeLines branchLines' localLines'
  end.

(** The number of indices at which both sides have a line and the two
    lines differ. *)
Fixpoint conflictCount (branchLines localLines : list string) : nat :=
  match branchLines, localLines with
  | branchLine :: branchLines', localLine :: localLines' =>
      (if String.eqb branchLine localLine then 0 else 1)
      + conflictCount branchLines' localLines'
  | _, _ => 0
  end.

(** ** A repository with remote references

    The small repository again, with a remote branch and a tag beside its
    two local branches. *)
Module DemoRemote.

Definition repo : list (string * Demo.tree) :=
  [ ("refs/heads/main", Demo.baseTree);
    ("refs/remotes/origin/main", Demo.baseTree);
    ("refs/tags/v1", Demo.baseTree);
    ("refs/heads/feature", Demo.targetTree) ].

Definition bound : @Control Demo.provider :=
  @mkControl Demo.provider (Some repo).

(** The disk [Demo.disk0] after [os.RemoveAll] of [out]. *)
Definition cleared : Demo.disk :=
  {| Demo.files := ∅; Demo.denied := [ "out/newfile.txt" ] |}.

End DemoRemote.

(** ** Binding a repository

    [git.PlainOpen] and [git.PlainClone] are go-git's: each returns a
    repository pointer, [None] when nil, and an error. *)
Class Opener {provider : Provider} : Type := {
  (** [git.PlainOpen(path)] *)
  git_PlainOpen : string → option Repository * option string;
  (** [git.PlainClone(path, false, &git.CloneOptions{URL: url, ...})] *)
  git_PlainClone : string → string → option Repository * option string
}.

(** [errors.Join(errs...).Error()]: the messages, one a line. *)
Definition errors_Join (messages : list string) : string := Join messages LF.

Section binding.

Context {provider : Provider} {opener : Opener}.

(** [NewRepoLocal]: the handle takes the pointer [git.PlainOpen] returned;
    on an error the message built first is replaced by the joined one,
    which names the directory and not the cause.  The method gives the
    handle as it leaves it and the message of the error it returns. *)
Definition NewRepoLocal (e : Control) (repoPath : string)
    : Control * option string :=
  let '(repository, err) := git_PlainOpen repoPath in
  let e := {| repository := repository |} in
  match err with
  | Some cause =>
      let err := "erro ao abrir repositório: " +:+ cause in
      let err :=
        errors_Join
          [ " - ";
            "certifique-se de que o diretório é um repositório git válido";
            " - ";
            "diretório: " +:+ repoPath ] in
      (e, Some err)
  | None => (e, None)
  end.

(** [NewRepoRemote]. *)
Definition NewRepoRemote (e : Control) (repoURL localPath : string)
    : Control * option string :=
  let '(repository, err) := git_PlainClone localPath repoURL in
  let e := {| repository := repository |} in
  match err with
  | Some cause => (e, Some ("erro ao clonar repositório: " +:+ cause +:+ nl))
  | None => (e, None)
  end.

End binding.

(** ** The package [src/git]

    The older copy of the package: its listings, [GetAllChangedFiles] and
    [GetFileChanges] read as those above; its [GetModifiedFiles] tests the
    repository first. *)
Module legacy.

Section legacy.

Context {provider : Provider}.

Definition GetModifiedFiles (c : Control) (branchName baseBranch : string)
    : goret (list string) :=
  match repository c with
  | None => Returns [] (Some ErrNotInitialized)
  | Some _ =>
      match compareTrees (repository c) branchName baseBranch with
      | NilDeref => Panics
      | Failed err => Returns [] (Some err)
      | Got (_, _, changes) => Returns (GetModifiedFiles_loop changes []) None
      end
  end.

End legacy.

End legacy.

(** ** The HTTP handlers of [cmd/main.go] that call the queries *)

Module http.

(** What a handler did to its [http.ResponseWriter]: [header] is the map
    [w.Header()] gives, [sent] the status and the header as they were when
    the status line went out, [body] the bytes written. *)
Record ResponseWriter : Type := mkResponseWriter {
  header : gmap string string;
  sent : option (nat * gmap string string);
  body : string
}.

(** A writer nothing was done to. *)
Definition fresh : ResponseWriter :=
  {| header := ∅; sent := None; body := "" |}.

(** [w.Header().Set(key, value)], for a key in canonical form. *)
Definition Header_Set (key value : string) (w : ResponseWriter)
    : ResponseWriter :=
  {| header := <[ key := value ]> (header w); sent := sent w; body := body w |}.

(** [w.WriteHeader(code)]: the first call sends the status and the header;
    a later one is ignored. *)
Definition WriteHeader (code : nat) (w : ResponseWriter) : ResponseWriter :=
  match sent w with
  | None => {| header := header w; sent := Some (code, header w); body := body w |}
  | Some _ => w
  end.

(** [w.Write(data)]: sends status 200 first when no status went out. *)
Definition Write (data : string) (w : ResponseWriter) : ResponseWriter :=
  let w := WriteHeader 200 w in
  {| header := header w; sent := sent w; body := body w +:+ data |}.

Definition StatusInternalServerError : nat := 500.

(** The status that went out, and the content type that went with it. *)
Definition status (w : ResponseWriter) : option nat := fst <$> sent w.
Definition contentType (w : ResponseWriter) : option string :=
  sent w ≫= λ s, snd s !! "Content-Type".

(** [r.URL.Query()]: the values of every key. *)
Definition Values : Type := gmap string (list string).

(** [values.Get(key)]: the first value of the key, or the empty string. *)
Definition Get (values : Values) (key : string) : string :=
  match values !! key with
  | Some (value :: _) => value
  | _ => ""
  end.

End http.

(** [json.Marshal] on the two kinds of value the handlers encode: an
    [ErrorStr] with the given [Error] field, and a slice of strings. *)
Class JSON : Type := {
  json_Marshal_ErrorStr : string → string;
  json_Marshal_strings : list string → string
}.

(** What the directory of a request is on the disk: [os.IsNotExist] of the
    error of [os.Stat]. *)
Class Disk : Type := {
  os_Stat_IsNotExist : string → bool
}.

(** How a handler ends: it returns, leaving the writer [w], or a panic
    leaves it. *)
Inductive served : Type :=
| Responded (w : http.ResponseWriter)
| HandlerPanics.

Section handlers.

Context {provider : Provider} {opener : Opener} {json : JSON} {disk : Disk}.

Definition setJsonHeaders (w : http.ResponseWriter) : http.ResponseWriter :=
  http.Header_Set "Content-Type" "application/json" w.

(** [setError(w, err)], on the message [err.Error()]. *)
Definition setError (w : http.ResponseWriter) (message : string)
    : http.ResponseWriter :=
  let data := json_Marshal_ErrorStr message in
  let w := http.Header_Set "Content-Type" "application/json" w in
  let w := http.WriteHeader http.StatusInternalServerError w in
  http.Write data w.

(** The error both handlers answer with when no repository is bound. *)
Definition noControlMessage : string :=
  errors_Join
    [ "no git control found";
      "please, use the endpoint /git/branchs?dir=/absolute/path" ].

(** [getChanges]; [globalControl] is the handle of the process. *)
Definition getChanges (globalControl : Control) (query : http.Values)
    (w : http.ResponseWriter) : served :=
  let w := setJsonHeaders w in
  if negb (IsInitialized globalControl) then
    Responded (setError w noControlMessage)
  else
    let yourBranch := http.Get query "yourBranch" in
    if String.eqb yourBranch "" then
      Responded (setError w "yourBranch not provided")
    else
      let baseBranch := http.Get query "baseBranch" in
      if String.eqb baseBranch "" then
        Responded (setError w "baseBranch not provided")
      else
        match GetModifiedFiles globalControl yourBranch baseBranch with
        | Panics => HandlerPanics
        | Returns _ (Some err) => Responded (setError w (Error err))
        | Returns list None =>
            Responded (http.Write (json_Marshal_strings list) w)
        end.

(** [getDiff]. *)
Definition getDiff (globalControl : Control) (query : http.Values)
    (w : http.ResponseWriter) : served :=
  if negb (IsInitialized globalControl) then
    Responded (setError w noControlMessage)
  else
    let yourBranch := http.Get query "yourBranch" in
    if String.eqb yourBranch "" then
      Responded (setError w "yourBranch not provided")
    else
      let baseBranch := http.Get query "baseBranch" in
      if String.eqb baseBranch "" then
        Responded (setError w "baseBranch not provided")
      else
        let file := http.Get query "file" in
        if String.eqb file "" then
          Responded (setError w "file not provided")
        else
          match DiffSpecificFile globalControl yourBranch baseBranch file with
          | Panics => HandlerPanics
          | Returns _ (Some err) => Responded (setError w (Error err))
          | Returns diffMap None =>
              match diffMap !! file with
              | None => Responded (setError w "file not found in diff")
              | Some diff =>
                  let w := http.Header_Set "Content-Type" "text/plain" w in
                  Responded (http.Write diff w)
              end
          end.

(** [gitBranchHandler]: it binds the handle of the process to the
    directory of the request and lists the branches; it gives the handle
    as it leaves it. *)
Definition gitBranchHandler (globalControl : Control) (query : http.Values)
    (w : http.ResponseWriter) : Control * served :=
  let w := setJsonHeaders w in
  let dir := http.Get query "dir" in
  if String.eqb dir "" then
    (globalControl, Responded (setError w "no dir provided"))
  else if os_Stat_IsNotExist dir then
    (globalControl, Responded (setError w "dir does not exist"))
  else
    match NewRepoLocal globalControl dir with
    | (globalControl, Some err) => (globalControl, Responded (setError w err))
    | (globalControl, None) =>
        match ListAllBranches globalControl with
        | Panics => (globalControl, HandlerPanics)
        | Returns _ (Some err) =>
            (globalControl, Responded (setError w (Error err)))
        | Returns list None =>
            (globalControl, Responded (http.Write (json_Marshal_strings list) w))
        end
    end.

End handlers.

(** ** A host for the handlers

    The directory [/repo] holds the small repository; no other directory
    exists, except [/empty], which holds no repository.  The encoder is a
    stand-in that keeps the values apart. *)
Module DemoHost.

Definition openAt (path : string)
    : option (list (string * Demo.tree)) * option string :=
  if String.eqb path "/repo" then (Some Demo.repo, None)
  else (None, Some "repository does not exist").

#[export] Instance opener : @Opener Demo.provider :=
  @Build_Opener Demo.provider openAt
    (λ path url, (None, Some "remote not reachable")).

#[export] Instance json : JSON := {|
  json_Marshal_ErrorStr message := "error:" +:+ message;
  json_Marshal_strings list := "list:" +:+ Join list ","%char
|}.

#[export] Instance disk : Disk := {|
  os_Stat_IsNotExist path :=
    negb (String.eqb path "/repo" || String.eqb path "/empty")
|}.

(** The query [?dir=...]. *)
Definition dirQuery (dir : string) : http.Values := {[ "dir" := [dir] ]}.

(** The query [?yourBranch=feature&baseBranch=main]. *)
Definition branchesQuery : http.Values :=
  {[ "yourBranch" := ["feature"]; "baseBranch" := ["main"] ]}.

End DemoHost.

(** ** The diff of an output directory with a branch *)

(** One call [filepath.Walk] makes to its function: the path, whether
    [info.IsDir()], and the error handed over with it. *)
Record WalkEntry : Type := mkWalkEntry {
  entryPath : string;
  entryIsDir : bool;
  entryErr : option string
}.

(** The files of the output directory, as [DiffOutputWithBranch] reads
    them. *)
Class OutputDir : Type := {
  (** [filepath.Walk(root, fn)]: the calls it makes, in their order, to a
      function that returns [nil] every time; it stops at the first call
      that returns an error and returns that error. *)
  filepath_Walk : string → list WalkEntry;
  (** [filepath.Rel(base, path)], [filepath.ToSlash(path)] *)
  filepath_Rel : string → string → result string;
  filepath_ToSlash : string → string;
  (** [os.ReadFile(path)] *)
  os_ReadFile : string → result string
}.

(** The errors the function handed to [filepath.Walk] returns. *)
Inductive walkError : Type :=
| WalkFailed (cause : string)
| ErrRelativePath (path cause : string)
| ErrBranchContents (relPath cause : string)
| ErrLocalFile (path cause : string).

(** The errors of [DiffOutputWithBranch]: those of the resolution of the
    branch, and the error of the walk, wrapped. *)
Inductive outputError : Type :=
| ErrResolve (err : error)
| ErrWalk (inner : walkError).

(** [err.Error()] for these. *)
Definition walkError_Error (e : walkError) : string :=
  match e with
  | WalkFailed cause => cause
  | ErrRelativePath path cause =>
      "erro ao obter caminho relativo de " +:+ path +:+ ": " +:+ cause
  | ErrBranchContents relPath cause =>
      "erro ao ler conteúdo de " +:+ relPath +:+ " na branch: " +:+ cause
  | ErrLocalFile path cause =>
      "erro ao ler arquivo local " +:+ path +:+ ": " +:+ cause
  end.

Definition outputError_Error (e : outputError) : string :=
  match e with
  | ErrResolve err => Error err
  | ErrWalk inner =>
      "erro ao percorrer diretório output: " +:+ walkError_Error inner
  end.

(** What a call of [DiffOutputWithBranch] does. *)
Inductive outret : Type :=
| OutReturns (diffs : gmap string string) (err : option outputError)
| OutPanics.

Section output.

Context {provider : Provider} {output : OutputDir}.

(** The function handed to [filepath.Walk], on the map [diffs] it fills:
    the map after the call and the error the call returns. *)
Definition DiffOutputWithBranch_fn (tree : Tree) (outputDir : string)
    (diffs : gmap string string) (entry : WalkEntry)
    : gmap string string * option walkError :=
  let path := entryPath entry in
  match entryErr entry with
  | Some cause => (diffs, Some (WalkFailed cause))
  | None =>
      if entryIsDir entry then (diffs, None)
      else
        match filepath_Rel outputDir path with
        | Err msg => (diffs, Some (ErrRelativePath path msg))
        | Ok relPath =>
            let relPath := filepath_ToSlash relPath in
            match Tree_File tree relPath with
            | Err _ => (diffs, None)
            | Ok branchFile =>
                match File_Contents branchFile with
                | Err msg => (diffs, Some (ErrBranchContents relPath msg))
                | Ok branchContent =>
                    match os_ReadFile path with
                    | Err msg => (diffs, Some (ErrLocalFile path msg))
                    | Ok localContent =>
                        if String.eqb localContent branchContent
                        then (diffs, None)
                        else
                          let diff := generateDiff branchContent localContent in
                          (<[ relPath := diff ]> diffs, None)
                    end
                end
            end
        end
  end.

(** [filepath.Walk] over the calls [entries]. *)
Fixpoint DiffOutputWithBranch_walk (tree : Tree) (outputDir : string)
    (entries : list WalkEntry) (diffs : gmap string string)
    : gmap string string * option walkError :=
  match entries with
  | [] => (diffs, None)
  | entry :: rest =>
      match DiffOutputWithBranch_fn tree outputDir diffs entry with
      | (diffs, Some err) => (diffs, Some err)
      | (diffs, None) => DiffOutputWithBranch_walk tree outputDir rest diffs
      end
  end.

(** [DiffOutputWithBranch]: no test of [e.repository]. *)
Definition DiffOutputWithBranch (e : Control) (branchName outputDir : string)
    : outret :=
  match repository e with
  | None => OutPanics
  | Some r =>
      match Repository_Reference r ("refs/heads/" +:+ branchName) true with
      | Err msg => OutReturns ∅ (Some (ErrResolve (ErrReference branchName msg)))
      | Ok ref =>
          match Repository_CommitObject r (Reference_Hash ref) with
          | Err msg => OutReturns ∅ (Some (ErrResolve (ErrCommit branchName msg)))
          | Ok commit =>
              match Commit_Tree commit with
              | Err msg =>
                  OutReturns ∅ (Some (ErrResolve (ErrTree branchName msg)))
              | Ok tree =>
                  match DiffOutputWithBranch_walk tree outputDir
                          (filepath_Walk outputDir) ∅ with
                  | (_, Some err) => OutReturns ∅ (Some (ErrWalk err))
                  | (diffs, None) => OutReturns diffs None
                  end
              end
          end
      end
  end.

(** The tree of a branch, as the first statements of
    [DiffOutputWithBranch] resolve it. *)
Definition branchTree (e : Control) (branchName : string) : option Tree :=
  match repository e with
  | None => None
  | Some r =>
      match Repository_Reference r ("refs/heads/" +:+ branchName) true with
      | Err _ => None
      | Ok ref =>
          match Repository_CommitObject r (Reference_Hash ref) with
          | Err _ => None
          | Ok commit =>
              match Commit_Tree commit with
              | Err _ => None
              | Ok tree => Some tree
              end
          end
      end
  end.

(** A file of the output directory that the branch has with another
    content: [relPath] is its path in the tree, [branchContent] and
    [localContent] the two contents. *)
Definition differs (tree : Tree) (outputDir : string) (entry : WalkEntry)
    (relPath branchContent localContent : string) : Prop :=
  entryErr entry = None
  ∧ entryIsDir entry = false
  ∧ (∃ rel, filepath_Rel outputDir (entryPath entry) = Ok rel
            ∧ relPath = filepath_ToSlash rel)
  ∧ (∃ branchFile, Tree_File tree relPath = Ok branchFile
                   ∧ File_Contents branchFile = Ok branchContent)
  ∧ os_ReadFile (entryPath entry) = Ok localContent
  ∧ localContent ≠ branchContent.

End output.

(** ** An output directory for the small repository

    Under [output]: [a.txt] with one more line than on the branch
    [feature], [keep.txt] as on the branch, and [extra.txt], which the
    branch does not have. *)
Module DemoOutput.

Definition local : list (string * string) :=
  [ ("output/a.txt", "2" +:+ nl +:+ "3");
    ("output/extra.txt", "e");
    ("output/keep.txt", "k") ].

#[export] Instance output : OutputDir := {|
  filepath_Walk root :=
    mkWalkEntry root true None
    :: ((λ file, mkWalkEntry (fst file) false None)
          <$> List.filter (λ file, String.prefix (root +:+ "/") (fst file)) local);
  filepath_Rel base path :=
    match Demo.dropPrefix (base +:+ "/") path with
    | Some rel => Ok rel
    | None => Err "Rel: can't make path relative"
    end;
  filepath_ToSlash path := path;
  os_ReadFile path :=
    match Demo.lookupPath local path with
    | Some content => Ok content
    | None => Err "no such file"
    end
|}.

End DemoOutput.

(** * Properties *)

Example scenario_A :
  generateDiff ("x" +:+ nl +:+ "y" +:+ nl) ("x" +:+ nl +:+ "z" +:+ nl)
  = ("x" +:+ nl) +:+ conflictBlock "z" "y" +:+ nl.
Proof. reflexivity. Qed.

Example scenario_B :
  generateDiff ("a" +:+ nl +:+ "b") ("a" +:+ nl +:+ "b" +:+ nl +:+ "c")
  = "a" +:+ nl +:+ "b" +:+ nl +:+ "c" +:+ nl.
Proof. reflexivity. Qed.

(** ** Facts about Go strings *)

Section string_facts.

Lemma app_nil_s (b : string) : "" +:+ b = b.
Proof. reflexivity. Qed.

Lemma app_cons_s (x : ascii) (a b : string) :
  String x a +:+ b = String x (a +:+ b).
Proof. reflexivity. Qed.

Lemma app_assoc_s (a b c : string) : (a +:+ b) +:+ c = a +:+ (b +:+ c).
Proof. induction a as [|x a IH]; [done|]. by rewrite !app_cons_s, IH. Qed.

Lemma app_empty_r_s (a : string) : a +:+ "" = a.
Proof. induction a as [|x a IH]; [done|]. by rewrite app_cons_s, IH. Qed.

Lemma app_length_s (a b : string) :
  String.length (a +:+ b) = String.length a + String.length b.
Proof. induction a as [|x a IH]; [done|]. rewrite app_cons_s. cbn. by rewrite IH. Qed.

Lemma Split_length_pos s sep : 0 < length (Split s sep).
Proof.
  induction s as [|c rest IH]; cbn; [lia|].
  destruct (Ascii.eqb c sep); cbn; [lia|].
  destruct (Split rest sep); cbn; lia.
Qed.

Lemma Split_not_nil s sep : Split s sep ≠ [].
Proof.
  pose proof (Split_length_pos s sep) as Hpos.
  destruct (Split s sep); [cbn in Hpos; lia | done].
Qed.

Lemma Split_head s sep : ∃ first others, Split s sep = first :: others.
Proof.
  pose proof (Split_not_nil s sep).
  destruct (Split s sep) as [|first others]; [done|eauto].
Qed.

(** A piece free of the separator, followed by the separator, is the
    first element of the split. *)
Lemma Split_app_sep a b sep :
  ContainsByte a sep = false →
  Split (a +:+ String sep b) sep = a :: Split b sep.
Proof.
  induction a as [|c a IH]; intros Hc.
  - rewrite app_nil_s. cbn. by rewrite Ascii.eqb_refl.
  - cbn in Hc. apply orb_false_iff in Hc as [Hc Ha].
    rewrite app_cons_s. cbn. by rewrite Hc, (IH Ha).
Qed.

Lemma Split_clean a sep : ContainsByte a sep = false → Split a sep = [a].
Proof.
  induction a as [|c a IH]; cbn; intros Hc; [done|].
  apply orb_false_iff in Hc as [Hc Ha]. by rewrite Hc, (IH Ha).
Qed.

(** No piece of a split contains the separator. *)
Lemma Split_pieces_clean s sep :
  Forall (λ piece, ContainsByte piece sep = false) (Split s sep).
Proof.
  induction s as [|c rest IH]; cbn.
  - by repeat constructor.
  - destruct (Ascii.eqb c sep) eqn:Hc.
    + by constructor.
    + destruct (Split rest sep) as [|first others]; cbn.
      * repeat constructor. cbn. by rewrite Hc.
      * inversion_clear IH as [|?? Hfirst Hothers].
        constructor; [|done]. cbn. by rewrite Hc, Hfirst.
Qed.

Lemma Join_cons2 e e' more sep :
  Join (e :: e' :: more) sep = e +:+ String sep (Join (e' :: more) sep).
Proof. reflexivity. Qed.

(** Joining the pieces of a split gives the string back. *)
Lemma Join_Split s sep : Join (Split s sep) sep = s.
Proof.
  induction s as [|c rest IH]; [done|]. cbn [Split].
  destruct (Split_head rest sep) as (first & others & Heq).
  rewrite Heq in *.
  destruct (Ascii.eqb c sep) eqn:Hc.
  - apply Ascii.eqb_eq in Hc as ->.
    by rewrite Join_cons2, IH, app_nil_s.
  - rewrite <-IH. destruct others as [|e' more]; [done|].
    by rewrite !Join_cons2, app_cons_s.
Qed.

Lemma unlines_app (xs ys : list string) :
  unlines (xs ++ ys) = unlines xs +:+ unlines ys.
Proof.
  induction xs as [|x xs IH]; [done|]. cbn [app unlines].
  by rewrite IH, !app_assoc_s.
Qed.

Lemma unlines_Join (ls : list string) :
  ls ≠ [] → unlines ls = Join ls LF +:+ nl.
Proof.
  induction ls as [|l ls IH]; [done|]. intros _.
  destruct ls as [|l' ls].
  - cbn. by rewrite app_empty_r_s.
  - cbn [unlines Join] in *. rewrite IH by done.
    unfold nl. by rewrite !app_assoc_s, !app_cons_s, !app_nil_s.
Qed.

(** Splitting newline-terminated lines gives the lines back, and the
    empty piece after the last newline. *)
Lemma Split_unlines (ls : list string) :
  Forall (λ l, ContainsByte l LF = false) ls →
  Split (unlines ls) LF = ls ++ [""].
Proof.
  induction 1 as [|l ls Hl _ IH]; [done|]. cbn [unlines app].
  unfold nl. rewrite app_assoc_s, app_cons_s, app_nil_s.
  by rewrite (Split_app_sep _ _ _ Hl), IH.
Qed.

Lemma unlines_not_empty (ls : list string) : ls ≠ [] → unlines ls ≠ "".
Proof.
  destruct ls as [|l ls]; [done|]. intros _ Heq.
  apply (f_equal String.length) in Heq. cbn [unlines] in Heq.
  rewrite !app_length_s in Heq. cbn in Heq. lia.
Qed.

Lemma unlines_ends_nl (ls : list string) :
  ls ≠ [] → ∃ body, unlines ls = body +:+ nl.
Proof. intros Hne. eexists. by apply unlines_Join. Qed.

End string_facts.

(** ** Facts about the conflict diff generator *)

Section generateDiff_facts.

Implicit Types (branchLines localLines : list string) (idxs : list nat).

(** Every iteration appends the lines [emittedLines] lists, each with its
    newline. *)
Lemma generateDiff_body_emits branchLines localLines result i :
  generateDiff_body branchLines localLines result i
  = result +:+ unlines (emittedLines branchLines localLines i).
Proof.
  unfold generateDiff_body, emittedLines. rewrite !nth_lookup.
  destruct (branchLines !! i) as [branchLine|] eqn:Hb;
    destruct (localLines !! i) as [localLine|] eqn:Hl.
  all: try (apply lookup_lt_Some in Hb as Hb').
  all: try (apply lookup_lt_Some in Hl as Hl').
  all: try (apply lookup_ge_None in Hb as Hb').
  all: try (apply lookup_ge_None in Hl as Hl').
  all: repeat match goal with
         | |- context [?a <? ?b] => destruct (Nat.ltb_spec a b); try lia
         | |- context [?a <=? ?b] => destruct (Nat.leb_spec a b); try lia
         end.
  all: cbn [from_option id unlines].
  all: try destruct (String.eqb branchLine localLine).
  all: cbn [unlines]; by rewrite ?app_empty_r_s, ?app_assoc_s.
Qed.

Lemma generateDiff_loop_emits branchLines localLines idxs result :
  generateDiff_loop branchLines localLines idxs result
  = result +:+ unlines (flat_map (emittedLines branchLines localLines) idxs).
Proof.
  unfold generateDiff_loop. revert result.
  induction idxs as [|i idxs IH]; intros result; cbn [foldl flat_map].
  - by rewrite app_empty_r_s.
  - by rewrite IH, generateDiff_body_emits, unlines_app, app_assoc_s.
Qed.

(** The loop over consecutive index ranges writes the outputs of the
    ranges one after the other. *)
Lemma generateDiff_loop_app branchLines localLines idxs1 idxs2 :
  generateDiff_loop branchLines localLines (idxs1 ++ idxs2) ""
  = generateDiff_loop branchLines localLines idxs1 ""
    +:+ generateDiff_loop branchLines localLines idxs2 "".
Proof. by rewrite !generateDiff_loop_emits, flat_map_app, unlines_app. Qed.

Lemma maxLen_max (a b : nat) : (if a <? b then b else a) = a `max` b.
Proof. destruct (Nat.ltb_spec a b); lia. Qed.

Lemma generateDiff_unfold branchContent localContent :
  generateDiff branchContent localContent
  = generateDiff_loop (Split branchContent LF) (Split localContent LF)
      (seq 0 (length (Split branchContent LF)
              `max` length (Split localContent LF))) "".
Proof. unfold generateDiff. cbv zeta. by rewrite maxLen_max. Qed.

(** The output around iteration [i]. *)
Lemma generateDiff_at branchContent localContent i :
  let branchLines := Split branchContent LF in
  let localLines := Split localContent LF in
  let maxLen := length branchLines `max` length localLines in
  i < maxLen →
  generateDiff branchContent localContent
  = generateDiff_loop branchLines localLines (seq 0 i) ""
    +:+ unlines (emittedLines branchLines localLines i)
    +:+ generateDiff_loop branchLines localLines (seq (S i) (maxLen - S i)) "".
Proof.
  intros bl ll maxLen Hi. rewrite generateDiff_unfold. fold bl ll maxLen.
  replace maxLen with (i + (1 + (maxLen - S i))) at 1 by lia.
  rewrite !seq_app, !generateDiff_loop_app. cbn [seq Nat.add].
  rewrite Nat.add_1_r. f_equal. f_equal.
  rewrite generateDiff_loop_emits. cbn [flat_map].
  by rewrite app_nil_r, app_nil_s.
Qed.

Lemma emittedLines_clean branchLines localLines i :
  Forall lineClean branchLines → Forall lineClean localLines →
  Forall lineClean (emittedLines branchLines localLines i).
Proof.
  intros Hb Hl. unfold emittedLines.
  destruct (branchLines !! i) as [branchLine|] eqn:Eb;
    destruct (localLines !! i) as [localLine|] eqn:El.
  all: try (pose proof (Forall_lookup_1 _ _ _ _ Hb Eb)).
  all: try (pose proof (Forall_lookup_1 _ _ _ _ Hl El)).
  all: try destruct (String.eqb branchLine localLine).
  all: by repeat constructor.
Qed.

Lemma flat_map_clean branchLines localLines idxs :
  Forall lineClean branchLines → Forall lineClean localLines →
  Forall lineClean (flat_map (emittedLines branchLines localLines) idxs).
Proof.
  intros Hb Hl. induction idxs as [|i idxs IH]; cbn [flat_map]; [done|].
  apply Forall_app. split; [by apply emittedLines_clean|done].
Qed.

(** The lines of the output, as [strings.Split] sees them. *)
Lemma generateDiff_lines branchContent localContent :
  let branchLines := Split branchContent LF in
  let localLines := Split localContent LF in
  Split (generateDiff branchContent localContent) LF
  = flat_map (emittedLines branchLines localLines)
      (seq 0 (length branchLines `max` length localLines)) ++ [""].
Proof.
  intros bl ll. rewrite generateDiff_unfold, generateDiff_loop_emits.
  rewrite app_nil_s. apply Split_unlines.
  apply flat_map_clean; apply Split_pieces_clean.
Qed.

Lemma emittedLines_length branchLines localLines i :
  1 ≤ length (emittedLines branchLines localLines i).
Proof.
  unfold emittedLines.
  destruct (branchLines !! i) as [branchLine|];
    destruct (localLines !! i) as [localLine|]; cbn; try lia.
  destruct (String.eqb branchLine localLine); cbn; lia.
Qed.

Lemma flat_map_emitted_length branchLines localLines idxs :
  length idxs ≤ length (flat_map (emittedLines branchLines localLines) idxs).
Proof.
  induction idxs as [|i idxs IH]; cbn [flat_map length]; [lia|].
  rewrite length_app.
  pose proof (emittedLines_length branchLines localLines i). lia.
Qed.

(** Past the end of the base side the local lines are copied. *)
Lemma flat_map_emitted_local_tail branchLines pre ls :
  length branchLines ≤ length pre →
  flat_map (emittedLines branchLines (pre ++ ls)) (seq (length pre) (length ls))
  = ls.
Proof.
  revert pre. induction ls as [|l ls IH]; intros pre Hlen; [done|].
  cbn [length seq flat_map]. unfold emittedLines at 1.
  rewrite (proj2 (lookup_ge_None branchLines (length pre))) by lia.
  rewrite list_lookup_middle by done. cbn [app]. f_equal.
  specialize (IH (pre ++ [l])). rewrite length_app in IH. cbn [length] in IH.
  rewrite Nat.add_1_r, <-app_assoc in IH. apply IH. lia.
Qed.

(** Two equal sides: every line is copied once. *)
Lemma flat_map_emitted_same pre ls :
  flat_map (emittedLines (pre ++ ls) (pre ++ ls)) (seq (length pre) (length ls))
  = ls.
Proof.
  revert pre. induction ls as [|l ls IH]; intros pre; [done|].
  cbn [length seq flat_map]. unfold emittedLines at 1.
  rewrite list_lookup_middle by done. rewrite String.eqb_refl. cbn [app].
  f_equal. specialize (IH (pre ++ [l])).
  rewrite length_app in IH. cbn [length] in IH.
  by rewrite Nat.add_1_r, <-app_assoc in IH.
Qed.

End generateDiff_facts.


(** ** The conflict diff generator: identical inputs, conflict blocks,
    line counts, the final newline *)

(** C1, as the specification states it, fails: on two identical inputs
    [generateDiff] does not return the input unchanged; for the content
    [x] it returns [x] and a newline. *)
Lemma generateDiff_same_changes_input :
  generateDiff "x" "x" = "x" +:+ nl ∧ generateDiff "x" "x" ≠ "x".
Proof. split; [reflexivity | discriminate]. Qed.

(** C1, amended: applied to two identical inputs [a], [generateDiff]
    returns [a] followed by one newline; the lines of the output are the
    lines of [a] and the empty piece after that newline, so no conflict
    block is written. *)
Theorem generateDiff_same (a : string) :
  generateDiff a a = a +:+ nl
  ∧ Split (generateDiff a a) LF = Split a LF ++ [""].
Proof.
  assert (generateDiff a a = unlines (Split a LF)) as Hout.
  { rewrite generateDiff_unfold, generateDiff_loop_emits, app_nil_s.
    rewrite Nat.max_id.
    pose proof (flat_map_emitted_same [] (Split a LF)) as Hsame.
    cbn [app length] in Hsame. by rewrite Hsame. }
  split.
  - rewrite Hout, unlines_Join by apply Split_not_nil.
    by rewrite Join_Split.
  - rewrite Hout. apply Split_unlines, Split_pieces_clean.
Qed.

(** C4: at every line index [i] where both inputs have a line and the two
    lines differ, the output is the output of the iterations before [i],
    then the five-line block ([<<<<<<< HEAD], the target line, [=======],
    the base line, [>>>>>>> branch], each followed by a newline), then the
    output of the iterations after [i]; the block is five lines of the
    output, and when the lines at [i + 1] differ too a second, separate
    block follows the first. *)
Theorem generateDiff_conflict_block (branchContent localContent : string)
    (i : nat) (branchLine localLine : string) :
  let branchLines := Split branchContent LF in
  let localLines := Split localContent LF in
  let maxLen := length branchLines `max` length localLines in
  let out := generateDiff branchContent localContent in
  let before := generateDiff_loop branchLines localLines (seq 0 i) "" in
  let block (ours theirs : string) :=
    ("<<<<<<< HEAD" +:+ nl) +:+ (ours +:+ nl) +:+ ("=======" +:+ nl)
      +:+ (theirs +:+ nl) +:+ (">>>>>>> branch" +:+ nl) in
  branchLines !! i = Some branchLine →
  localLines !! i = Some localLine →
  branchLine ≠ localLine →
  out = before +:+ block localLine branchLine
          +:+ generateDiff_loop branchLines localLines
                (seq (S i) (maxLen - S i)) ""
  ∧ (∃ linesBefore linesAfter,
        unlines linesBefore = before
        ∧ Split out LF
          = linesBefore
            ++ ["<<<<<<< HEAD"; localLine; "======="; branchLine;
                ">>>>>>> branch"]
            ++ linesAfter)
  ∧ (∀ branchLine' localLine',
        branchLines !! S i = Some branchLine' →
        localLines !! S i = Some localLine' →
        branchLine' ≠ localLine' →
        out = before +:+ block localLine branchLine
                +:+ block localLine' branchLine'
                +:+ generateDiff_loop branchLines localLines
                      (seq (S (S i)) (maxLen - S (S i))) "").
Proof.
  intros bl ll maxLen out before block Hb Hl Hne.
  assert (emittedLines bl ll i
          = [markerHead; localLine; markerSep; branchLine; markerEnd]) as Hem.
  { unfold emittedLines. rewrite Hb, Hl.
    by rewrite (proj2 (String.eqb_neq _ _) Hne). }
  assert (∀ ours theirs,
            unlines [markerHead; ours; markerSep; theirs; markerEnd]
            = block ours theirs) as Hblock.
  { intros. subst block. cbn [unlines].
    by rewrite app_empty_r_s, !app_assoc_s. }
  assert (i < maxLen) as Hi.
  { apply lookup_lt_Some in Hb. subst maxLen. lia. }
  assert (out = before +:+ block localLine branchLine
                  +:+ generateDiff_loop bl ll (seq (S i) (maxLen - S i)) "")
    as Hout.
  { subst out. rewrite (generateDiff_at _ _ i Hi).
    fold bl ll maxLen before. by rewrite Hem, Hblock. }
  split; [exact Hout|]. split.
  - exists (flat_map (emittedLines bl ll) (seq 0 i)),
      (flat_map (emittedLines bl ll) (seq (S i) (maxLen - S i)) ++ [""]).
    split.
    + subst before. by rewrite generateDiff_loop_emits, app_nil_s.
    + subst out. rewrite generateDiff_lines. fold bl ll maxLen.
      replace maxLen with (i + (1 + (maxLen - S i))) at 1 by lia.
      rewrite !seq_app, !flat_map_app. cbn [seq flat_map Nat.add].
      rewrite Nat.add_1_r, Hem, app_nil_r. by rewrite <-!app_assoc.
  - intros branchLine' localLine' Hb' Hl' Hne'.
    assert (S i < maxLen) as Hi'.
    { apply lookup_lt_Some in Hb'. subst maxLen. lia. }
    rewrite Hout. do 2 f_equal.
    replace (maxLen - S i) with (1 + (maxLen - S (S i))) by lia.
    rewrite seq_app, generateDiff_loop_app. cbn [seq Nat.add].
    rewrite Nat.add_1_r. f_equal.
    rewrite generateDiff_loop_emits, app_nil_s. cbn [flat_map].
    rewrite app_nil_r. unfold emittedLines. rewrite Hb', Hl'.
    rewrite (proj2 (String.eqb_neq _ _) Hne'). apply Hblock.
Qed.

(** C4 on an instance: base [a], [b] and target [a], [c]. *)
Lemma generateDiff_conflict_block_witness :
  generateDiff ("a" +:+ nl +:+ "b") ("a" +:+ nl +:+ "c")
  = ("a" +:+ nl) +:+ conflictBlock "c" "b" +:+ "".
Proof.
  pose proof (generateDiff_conflict_block
                ("a" +:+ nl +:+ "b") ("a" +:+ nl +:+ "c") 1 "b" "c") as H.
  cbv zeta in H. destruct H as [H _]; [reflexivity | reflexivity | discriminate |].
  exact H.
Defined.

(** C9: the output has at least as many lines as the longer input, and at
    every index [i] where both inputs have the same line, that line is
    written once, unchanged, after the output of the iterations before
    [i]; it is the line of the output that follows their lines. *)
Theorem generateDiff_line_count (branchContent localContent : string) :
  let branchLines := Split branchContent LF in
  let localLines := Split localContent LF in
  let maxLen := length branchLines `max` length localLines in
  let out := generateDiff branchContent localContent in
  maxLen ≤ length (Split out LF)
  ∧ (∀ i line,
        branchLines !! i = Some line →
        localLines !! i = Some line →
        out = generateDiff_loop branchLines localLines (seq 0 i) ""
                +:+ (line +:+ nl)
                +:+ generateDiff_loop branchLines localLines
                      (seq (S i) (maxLen - S i)) ""
        ∧ ∃ linesBefore,
            unlines linesBefore
            = generateDiff_loop branchLines localLines (seq 0 i) ""
            ∧ Forall lineClean linesBefore
            ∧ Split out LF !! length linesBefore = Some line).
Proof.
  intros bl ll maxLen out. split.
  - subst out. rewrite generateDiff_lines. fold bl ll maxLen.
    rewrite length_app.
    pose proof (flat_map_emitted_length bl ll (seq 0 maxLen)) as Hlen.
    rewrite length_seq in Hlen. lia.
  - intros i line Hb Hl.
    assert (emittedLines bl ll i = [line]) as Hem.
    { unfold emittedLines. by rewrite Hb, Hl, String.eqb_refl. }
    assert (i < maxLen) as Hi.
    { apply lookup_lt_Some in Hb. subst maxLen. lia. }
    split.
    + subst out. rewrite (generateDiff_at _ _ i Hi).
      fold bl ll maxLen. rewrite Hem. cbn [unlines].
      by rewrite app_empty_r_s.
    + exists (flat_map (emittedLines bl ll) (seq 0 i)).
      split; [by rewrite generateDiff_loop_emits, app_nil_s|].
      split; [apply flat_map_clean; apply Split_pieces_clean|].
      subst out. rewrite generateDiff_lines. fold bl ll maxLen.
      replace maxLen with (i + (1 + (maxLen - S i))) at 1 by lia.
      rewrite !seq_app, !flat_map_app. cbn [seq flat_map Nat.add].
      rewrite Nat.add_1_r, Hem. rewrite <-!app_assoc. cbn [app].
      by rewrite list_lookup_middle.
Qed.

(** C9 on an instance: the line [a] shared by two inputs of two lines. *)
Lemma generateDiff_line_count_witness :
  2 ≤ length (Split (generateDiff ("a" +:+ nl +:+ "b") ("a" +:+ nl +:+ "c")) LF)
  ∧ generateDiff ("a" +:+ nl +:+ "b") ("a" +:+ nl +:+ "c")
    = "" +:+ ("a" +:+ nl) +:+ conflictBlock "c" "b".
Proof.
  pose proof (generateDiff_line_count
                ("a" +:+ nl +:+ "b") ("a" +:+ nl +:+ "c")) as H.
  cbv zeta in H. destruct H as [Hcount Hsame]. split; [exact Hcount|].
  destruct (Hsame 0 "a") as [H _]; [reflexivity | reflexivity |].
  exact H.
Defined.

(** C10: the output of [generateDiff] is never empty and ends in a
    newline: it is a non-empty sequence of lines, each followed by a
    newline; on two empty inputs it is one newline. *)
Theorem generateDiff_ends_in_newline (branchContent localContent : string) :
  generateDiff branchContent localContent ≠ ""
  ∧ (∃ body, generateDiff branchContent localContent = body +:+ nl)
  ∧ (∃ lines, lines ≠ []
              ∧ generateDiff branchContent localContent = unlines lines)
  ∧ generateDiff "" "" = nl.
Proof.
  set (bl := Split branchContent LF). set (ll := Split localContent LF).
  set (lines := flat_map (emittedLines bl ll)
                  (seq 0 (length bl `max` length ll))).
  assert (generateDiff branchContent localContent = unlines lines) as Hout.
  { by rewrite generateDiff_unfold, generateDiff_loop_emits, app_nil_s. }
  assert (lines ≠ []) as Hne.
  { pose proof (flat_map_emitted_length bl ll
                  (seq 0 (length bl `max` length ll))) as Hlen.
    rewrite length_seq in Hlen. fold lines in Hlen.
    pose proof (Split_length_pos branchContent LF). fold bl in H.
    destruct lines; [cbn in Hlen; lia | done]. }
  rewrite Hout. split; [by apply unlines_not_empty|].
  split; [by apply unlines_ends_nl|].
  split; [by exists lines | reflexivity].
Qed.

(** ** The branch queries *)

Section git_facts.

Context {provider : Provider} {os : OS}.

Implicit Types (e : Control) (changes : list object.Change).

(** What [Change.Action] answers, by the sides that are the zero value. *)
Lemma Action_cases (c : object.Change) :
  (object.From c = object.empty ∧ object.To c = object.empty
   ∧ ∃ msg, object.Action c = (merkletrie.NoAction, Some msg))
  ∨ (object.From c = object.empty ∧ object.To c ≠ object.empty
     ∧ object.Action c = (merkletrie.Insert, None))
  ∨ (object.From c ≠ object.empty ∧ object.To c = object.empty
     ∧ object.Action c = (merkletrie.Delete, None))
  ∨ (object.From c ≠ object.empty ∧ object.To c ≠ object.empty
     ∧ object.Action c = (merkletrie.Modify, None)).
Proof.
  unfold object.Action.
  destruct (decide (object.From c = object.empty)) as [Hf|Hf];
    destruct (decide (object.To c = object.empty)) as [Ht|Ht].
  all: rewrite ?(bool_decide_eq_true_2 _ Hf), ?(bool_decide_eq_false_2 _ Hf),
         ?(bool_decide_eq_true_2 _ Ht), ?(bool_decide_eq_false_2 _ Ht).
  all: cbn [andb]; eauto 10.
Qed.

(** A deletion carries its path as the old path only: its new path is the
    empty name of the zero value. *)
Lemma Action_Delete_To (c : object.Change) :
  object.Action c = (merkletrie.Delete, None) →
  object.Name (object.To c) = "".
Proof.
  destruct (Action_cases c) as [(_ & _ & ? & H)|[(_ & _ & H)|[(_ & Ht & _)|(_ & _ & H)]]];
    try (rewrite H; discriminate).
  intros _. by rewrite Ht.
Qed.

Lemma omap_cons_eq {A B : Type} (f : A → option B) (x : A) (l : list A) :
  omap f (x :: l)
  = match f x with Some y => y :: omap f l | None => omap f l end.
Proof. reflexivity. Qed.

(** The classification of a record, by what [Change.Action] answers. *)
Lemma classifyRecord_cases (c : object.Change) :
  (classifyRecord c = None ∧ ∃ a msg, object.Action c = (a, Some msg))
  ∨ (classifyRecord c
     = Some {| Path := object.Name (object.To c); Action := "added" |}
     ∧ object.Action c = (merkletrie.Insert, None))
  ∨ (classifyRecord c
     = Some {| Path := object.Name (object.From c); Action := "deleted" |}
     ∧ object.Action c = (merkletrie.Delete, None))
  ∨ (classifyRecord c
     = Some {| Path := object.Name (object.To c); Action := "modified" |}
     ∧ object.Action c = (merkletrie.Modify, None)).
Proof.
  unfold classifyRecord.
  destruct (Action_cases c)
    as [(_ & _ & ? & H)|[(_ & _ & H)|[(_ & _ & H)|(_ & _ & H)]]];
    rewrite H; eauto 10.
Qed.

Local Ltac by_record c IH :=
  destruct (classifyRecord_cases c)
    as [(Hc & ? & ? & H)|[(Hc & H)|[(Hc & H)|(Hc & H)]]];
  rewrite omap_cons_eq, Hc, H, IH;
  cbn [List.filter addedOrModified fmap list_fmap Action Path String.eqb
       Ascii.eqb Bool.eqb orb];
  by rewrite <-?app_assoc.

Lemma GetFileChanges_loop_classifies changes fileChanges :
  GetFileChanges_loop changes fileChanges
  = fileChanges ++ omap classifyRecord changes.
Proof.
  revert fileChanges.
  induction changes as [|c changes IH]; intros acc; cbn [GetFileChanges_loop].
  { by rewrite app_nil_r. }
  by_record c IH.
Qed.

Lemma GetAllChangedFiles_loop_paths changes changedFiles :
  GetAllChangedFiles_loop changes changedFiles
  = changedFiles ++ (Path <$> omap classifyRecord changes).
Proof.
  revert changedFiles.
  induction changes as [|c changes IH]; intros acc;
    cbn [GetAllChangedFiles_loop].
  { by rewrite app_nil_r. }
  by_record c IH.
Qed.

Lemma GetModifiedFiles_loop_paths changes modifiedFiles :
  GetModifiedFiles_loop changes modifiedFiles
  = modifiedFiles
    ++ (Path <$> List.filter addedOrModified (omap classifyRecord changes)).
Proof.
  revert modifiedFiles.
  induction changes as [|c changes IH]; intros acc;
    cbn [GetModifiedFiles_loop].
  { by rewrite app_nil_r. }
  by_record c IH.
Qed.

(** A comparison that got its changes had a repository to ask. *)
Lemma compareTrees_bound repo branchName branchBase r :
  compareTrees repo branchName branchBase = Got r → ∃ bound, repo = Some bound.
Proof. destruct repo; [eauto | discriminate]. Qed.

Lemma GetFileChanges_of_changes e (branchName baseBranch : string)
    (targetTree baseTree : Tree) changes :
  compareTrees (repository e) branchName baseBranch
  = Got (targetTree, baseTree, changes) →
  GetFileChanges e branchName baseBranch
  = Returns (omap classifyRecord changes) None.
Proof.
  intros Hcmp. unfold GetFileChanges.
  destruct (compareTrees_bound _ _ _ _ Hcmp) as [r Hr].
  rewrite Hr in *. rewrite Hcmp.
  by rewrite GetFileChanges_loop_classifies.
Qed.

(** C3, on the code: with no repository bound, the listings of branches,
    [GetAllChangedFiles] and [GetFileChanges] return the error
    "not initialized"; [GetModifiedFiles], [DiffSpecificFile] and
    [DownloadModifiedFiles] test nothing and end in a nil pointer
    dereference, the last one after it cleared the destination. *)
Theorem unbound_repository (branchName branchBase fileName destDir : string)
    (fs : Fs) :
  let e := {| repository := None |} in
  ListBranches e = Returns [] (Some ErrNotInitialized)
  ∧ ListAllBranches e = Returns [] (Some ErrNotInitialized)
  ∧ ListRemoteBranches e = Returns [] (Some ErrNotInitialized)
  ∧ GetAllChangedFiles e branchName branchBase
    = Returns [] (Some ErrNotInitialized)
  ∧ GetFileChanges e branchName branchBase
    = Returns [] (Some ErrNotInitialized)
  ∧ GetModifiedFiles e branchName branchBase = Panics
  ∧ DiffSpecificFile e branchName branchBase fileName = Panics
  ∧ DownloadModifiedFiles e branchName branchBase destDir fs
    = (fst (os_RemoveAll destDir fs), Panics).
Proof. repeat split. Qed.

(** C6: when the comparison of the two trees gave the records [changes],
    [GetFileChanges] returns, in their order and without an error, the
    classification of every record: Insert is ["added"] with the new path,
    Modify is ["modified"] with the new path, Delete is ["deleted"] with
    the old path, and a record whose action cannot be determined is
    skipped. *)
Theorem GetFileChanges_classification e (branchName baseBranch : string)
    (targetTree baseTree : Tree) changes :
  compareTrees (repository e) branchName baseBranch
  = Got (targetTree, baseTree, changes) →
  GetFileChanges e branchName baseBranch
  = Returns (omap classifyRecord changes) None
  ∧ ∀ change, change ∈ changes →
      match object.Action change with
      | (_, Some _) => classifyRecord change = None
      | (merkletrie.Insert, None) =>
          classifyRecord change
          = Some {| Path := object.Name (object.To change); Action := "added" |}
      | (merkletrie.Modify, None) =>
          classifyRecord change
          = Some {| Path := object.Name (object.To change);
                    Action := "modified" |}
      | (merkletrie.Delete, None) =>
          classifyRecord change
          = Some {| Path := object.Name (object.From change);
                    Action := "deleted" |}
      | (merkletrie.NoAction, None) => False
      end.
Proof.
  intros Hcmp. split.
  - by apply (GetFileChanges_of_changes e _ _ targetTree baseTree).
  - intros c _.
    destruct (classifyRecord_cases c)
      as [(Hc & a & ? & H)|[(Hc & H)|[(Hc & H)|(Hc & H)]]];
      rewrite H; [by destruct a | done..].
Qed.

(** C7: when [GetFileChanges] returns the entries [fileChanges] for two
    branches, [GetModifiedFiles] returns for them the paths of the entries
    whose action is ["added"] or ["modified"], and [GetAllChangedFiles] the
    paths of all entries, both in the order of the entries. *)
Theorem query_shapes_agree e (branchName baseBranch : string)
    (fileChanges : list FileChange) :
  GetFileChanges e branchName baseBranch = Returns fileChanges None →
  GetModifiedFiles e branchName baseBranch
  = Returns (Path <$> List.filter addedOrModified fileChanges) None
  ∧ GetAllChangedFiles e branchName baseBranch
    = Returns (Path <$> fileChanges) None.
Proof.
  unfold GetFileChanges, GetModifiedFiles, GetAllChangedFiles.
  destruct (repository e) as [r|] eqn:Hr; [|discriminate].
  destruct (compareTrees (Some r) branchName baseBranch)
    as [[[targetTree baseTree] changes]| |]; try discriminate.
  intros [= <-].
  rewrite GetFileChanges_loop_classifies, GetModifiedFiles_loop_paths,
    GetAllChangedFiles_loop_paths.
  done.
Qed.

End git_facts.

(** ** The download of the changed files *)

Section DownloadModifiedFiles_facts.

Context {provider : Provider} {os : OS}.

Implicit Types (targetTree : Tree) (changes : list object.Change)
  (downloaded : list string) (fs : Fs).

(** The loop goes on after one change exactly when the iteration for it
    ended without an error. *)
Lemma DownloadModifiedFiles_loop_cons targetTree destDir change rest
    downloaded fs :
  DownloadModifiedFiles_loop targetTree destDir (change :: rest) downloaded fs
  = match DownloadModifiedFiles_loop targetTree destDir [change] downloaded fs
    with
    | (fs', (downloaded', None)) =>
        DownloadModifiedFiles_loop targetTree destDir rest downloaded' fs'
    | failed => failed
    end.
Proof.
  cbn [DownloadModifiedFiles_loop]. repeat case_match; simplify_eq; done.
Qed.


(** An iteration that ends in an error returns the list as it found it. *)
Lemma DownloadModifiedFiles_loop_failed targetTree destDir change
    downloaded fs fs' downloaded' e :
  DownloadModifiedFiles_loop targetTree destDir [change] downloaded fs
  = (fs', (downloaded', Some e)) →
  downloaded' = downloaded.
Proof.
  cbn [DownloadModifiedFiles_loop]. repeat case_match; naive_solver.
Qed.

(** An iteration that ends without an error appended the destination of
    the change, when the change is an insertion or a modification, and
    nothing otherwise. *)
Lemma DownloadModifiedFiles_loop_step targetTree destDir change
    downloaded fs fs' downloaded' :
  DownloadModifiedFiles_loop targetTree destDir [change] downloaded fs
  = (fs', (downloaded', None)) →
  downloaded'
  = downloaded
    ++ (filepath_Join destDir
          <$> (Path <$> List.filter addedOrModified (omap classifyRecord [change]))).
Proof.
  cbn [DownloadModifiedFiles_loop]. rewrite omap_cons_eq.
  destruct (classifyRecord_cases change)
    as [(Hc & a & msg & H)|[(Hc & H)|[(Hc & H)|(Hc & H)]]];
    rewrite Hc, H;
    cbn [List.filter addedOrModified fmap list_fmap Action Path String.eqb
         Ascii.eqb Bool.eqb orb omap list_omap];
    repeat case_match; repeat case_bool_decide; simplify_eq;
    intros; simplify_eq; rewrite ?app_nil_r; try done.
  all: naive_solver.
Qed.

(** A run that ends without an error returns the destinations of the
    insertions and modifications, in their order. *)
Lemma DownloadModifiedFiles_loop_written targetTree destDir changes
    downloaded fs fs' downloaded' :
  DownloadModifiedFiles_loop targetTree destDir changes downloaded fs
  = (fs', (downloaded', None)) →
  downloaded'
  = downloaded
    ++ (filepath_Join destDir
          <$> (Path <$> List.filter addedOrModified (omap classifyRecord changes))).
Proof.
  revert downloaded fs.
  induction changes as [|c changes IH]; intros downloaded fs.
  { cbn. intros [= <- <-]. by rewrite app_nil_r. }
  rewrite DownloadModifiedFiles_loop_cons.
  destruct (DownloadModifiedFiles_loop targetTree destDir [c] downloaded fs)
    as [fs1 [downloaded1 [e1|]]] eqn:Hstep; [done|].
  intros Hrest. rewrite (IH _ _ Hrest).
  rewrite (DownloadModifiedFiles_loop_step _ _ _ _ _ _ _ Hstep).
  rewrite !omap_cons_eq.
  destruct (classifyRecord c) as [fc|];
    cbn [omap list_omap List.filter fmap list_fmap];
    [|by rewrite app_nil_r].
  destruct (addedOrModified fc); cbn [fmap list_fmap];
    by rewrite ?app_nil_r, <-?app_assoc.
Qed.

(** A run that ends in an error went through a first part of the changes
    without one and failed on the change after it. *)
Lemma DownloadModifiedFiles_loop_error targetTree destDir changes
    downloaded fs fs' downloaded' e :
  DownloadModifiedFiles_loop targetTree destDir changes downloaded fs
  = (fs', (downloaded', Some e)) →
  ∃ earlier failing rest fsWritten,
    changes = earlier ++ failing :: rest
    ∧ DownloadModifiedFiles_loop targetTree destDir earlier downloaded fs
      = (fsWritten, (downloaded', None))
    ∧ DownloadModifiedFiles_loop targetTree destDir [failing] downloaded'
        fsWritten
      = (fs', (downloaded', Some e)).
Proof.
  revert downloaded fs.
  induction changes as [|c changes IH]; intros downloaded fs; [done|].
  rewrite DownloadModifiedFiles_loop_cons.
  destruct (DownloadModifiedFiles_loop targetTree destDir [c] downloaded fs)
    as [fs1 [downloaded1 [e1|]]] eqn:Hstep.
  - intros [= -> -> ->].
    pose proof (DownloadModifiedFiles_loop_failed _ _ _ _ _ _ _ _ Hstep) as ->.
    by exists [], c, changes, fs.
  - intros Hrest.
    destruct (IH _ _ Hrest) as (earlier & failing & rest & fsW & -> & He & Hf).
    exists (c :: earlier), failing, rest, fsW. split; [done|]. split; [|done].
    by rewrite DownloadModifiedFiles_loop_cons, Hstep.
Qed.


End DownloadModifiedFiles_facts.

(** ** The diff of one file *)

Section DiffSpecificFile_facts.

Context {provider : Provider}.

Implicit Types (e : Control) (targetTree baseTree : Tree)
  (changes : list object.Change).


(** Records with another new path are passed over. *)
Lemma DiffSpecificFile_loop_skip targetTree baseTree fileName earlier changes :
  Forall (λ c, object.Name (object.To c) ≠ fileName) earlier →
  DiffSpecificFile_loop targetTree baseTree fileName (earlier ++ changes)
  = DiffSpecificFile_loop targetTree baseTree fileName changes.
Proof.
  induction 1 as [|c earlier Hc _ IH]; [done|].
  cbn [app DiffSpecificFile_loop].
  destruct (object.Action c) as [action [msg|]]; [done|].
  by rewrite (bool_decide_eq_true_2 _ Hc).
Qed.

(** A path that is the new path of no record is not found. *)
Lemma DiffSpecificFile_loop_absent targetTree baseTree fileName changes :
  Forall (λ c, object.Name (object.To c) ≠ fileName) changes →
  DiffSpecificFile_loop targetTree baseTree fileName changes
  = Returns ∅ (Some (ErrNotInDiff fileName)).
Proof.
  intros Hall.
  rewrite <-(app_nil_r changes).
  by rewrite (DiffSpecificFile_loop_skip _ _ _ _ [] Hall).
Qed.

(** The new paths of the records are the added and the modified paths, and
    the empty name for every deletion. *)
Lemma new_paths_of_records (fileName : string) changes :
  fileName ≠ "" →
  fileName ∉ (Path <$> List.filter addedOrModified (omap classifyRecord changes)) →
  Forall (λ c, object.Name (object.To c) ≠ fileName) changes.
Proof.
  intros Hname.
  induction changes as [|c changes IH]; intros Hnot; [done|].
  rewrite omap_cons_eq in Hnot.
  destruct (classifyRecord_cases c)
    as [(Hc & a & msg & H)|[(Hc & H)|[(Hc & H)|(Hc & H)]]];
    rewrite Hc in Hnot;
    cbn [List.filter addedOrModified fmap list_fmap Action Path String.eqb
         Ascii.eqb Bool.eqb orb] in Hnot.
  - constructor; [|by apply IH].
    destruct (Action_cases c)
      as [(_ & Ht & _)|[(_ & _ & H')|[(_ & _ & H')|(_ & _ & H')]]];
      [by rewrite Ht | congruence..].
  - apply not_elem_of_cons in Hnot as [Hne Hnot]. constructor; [done|auto].
  - constructor; [|by apply IH]. by rewrite (Action_Delete_To c H).
  - apply not_elem_of_cons in Hnot as [Hne Hnot]. constructor; [done|auto].
Qed.



End DiffSpecificFile_facts.

(** ** The queries on the small repository *)

Import (hints) Demo.

(** C6 on the small repository: one record of each kind. *)
Lemma GetFileChanges_classification_witness :
  GetFileChanges Demo.bound "feature" "main" = Returns Demo.fileChanges None.
Proof.
  destruct (GetFileChanges_classification Demo.bound "feature" "main"
              Demo.targetTree Demo.baseTree
              (Demo.changesOf Demo.targetTree Demo.baseTree))
    as [H _]; [reflexivity|].
  exact H.
Defined.

(** C7 on the small repository. *)
Lemma query_shapes_agree_witness :
  GetModifiedFiles Demo.bound "feature" "main"
  = Returns ["a.txt"; "newfile.txt"] None
  ∧ GetAllChangedFiles Demo.bound "feature" "main"
    = Returns ["a.txt"; "newfile.txt"; "old.txt"] None.
Proof.
  apply (query_shapes_agree Demo.bound "feature" "main" Demo.fileChanges).
  reflexivity.
Defined.





(** * Further properties *)

(** ** The conflict diff generator, line by line *)

Section mergeLines_facts.

Implicit Types (branchLines localLines : list string).

Lemma emittedLines_cons (branchLine localLine : string) branchLines localLines
    (i : nat) :
  emittedLines (branchLine :: branchLines) (localLine :: localLines) (S i)
  = emittedLines branchLines localLines i.
Proof. reflexivity. Qed.

Lemma flat_map_emitted_shift (branchLine localLine : string)
    branchLines localLines (n : nat) :
  flat_map (emittedLines (branchLine :: branchLines) (localLine :: localLines))
    (seq 1 n)
  = flat_map (emittedLines branchLines localLines) (seq 0 n).
Proof.
  rewrite <-fmap_S_seq. generalize (seq 0 n). intros idxs.
  induction idxs as [|i idxs IH]; [done|].
  cbn [fmap list_fmap flat_map]. by rewrite <-IH.
Qed.

(** What is left of the base side when the target side has ended. *)
Lemma flat_map_emitted_base_tail pre ls localLines :
  length localLines ≤ length pre →
  flat_map (emittedLines (pre ++ ls) localLines) (seq (length pre) (length ls))
  = ls.
Proof.
  revert pre. induction ls as [|l ls IH]; intros pre Hlen; [done|].
  cbn [length seq flat_map]. unfold emittedLines at 1.
  rewrite (proj2 (lookup_ge_None localLines (length pre))) by lia.
  rewrite list_lookup_middle by done. cbn [app]. f_equal.
  specialize (IH (pre ++ [l])). rewrite length_app in IH. cbn [length] in IH.
  rewrite Nat.add_1_r, <-app_assoc in IH. apply IH. lia.
Qed.

(** The iterations of the loop write the lines of [mergeLines]. *)
Lemma flat_map_emitted_merge branchLines localLines :
  flat_map (emittedLines branchLines localLines)
    (seq 0 (length branchLines `max` length localLines))
  = mergeLines branchLines localLines.
Proof.
  revert localLines.
  induction branchLines as [|b branchLines IH]; intros localLines.
  - cbn [length mergeLines Nat.max].
    apply (flat_map_emitted_local_tail [] [] localLines). done.
  - destruct localLines as [|l localLines].
    + cbn [length mergeLines]. rewrite Nat.max_0_r.
      apply (flat_map_emitted_base_tail [] (b :: branchLines) []). done.
    + cbn [length mergeLines]. rewrite <-Nat.succ_max_distr.
      cbn [seq flat_map]. rewrite flat_map_emitted_shift, IH. done.
Qed.

Lemma generateDiff_merge (branchContent localContent : string) :
  generateDiff branchContent localContent
  = unlines (mergeLines (Split branchContent LF) (Split localContent LF)).
Proof.
  by rewrite generateDiff_unfold, generateDiff_loop_emits, app_nil_s,
    flat_map_emitted_merge.
Qed.

Lemma mergeLines_clean branchLines localLines :
  Forall lineClean branchLines → Forall lineClean localLines →
  Forall lineClean (mergeLines branchLines localLines).
Proof.
  intros Hb Hl. rewrite <-flat_map_emitted_merge. by apply flat_map_clean.
Qed.

Lemma generateDiff_merge_lines (branchContent localContent : string) :
  Split (generateDiff branchContent localContent) LF
  = mergeLines (Split branchContent LF) (Split localContent LF) ++ [""].
Proof.
  rewrite generateDiff_merge. apply Split_unlines.
  apply mergeLines_clean; apply Split_pieces_clean.
Qed.

Lemma mergeLines_nil_r branchLines : mergeLines branchLines [] = branchLines.
Proof. by destruct branchLines. Qed.

Lemma mergeLines_length branchLines localLines :
  length (mergeLines branchLines localLines)
  = length branchLines `max` length localLines
    + 4 * conflictCount branchLines localLines.
Proof.
  revert localLines.
  induction branchLines as [|b branchLines IH]; intros [|l localLines];
    cbn [mergeLines conflictCount length]; try lia.
  rewrite length_app, IH.
  destruct (String.eqb b l); cbn [length]; lia.
Qed.

Lemma mergeLines_sublist_local branchLines localLines :
  localLines `sublist_of` mergeLines branchLines localLines.
Proof.
  revert localLines.
  induction branchLines as [|b branchLines IH]; intros [|l localLines];
    cbn [mergeLines]; try done.
  { apply sublist_nil_l. }
  change (l :: localLines) with ([l] ++ localLines).
  apply sublist_app; [|apply IH].
  destruct (String.eqb b l); [done|].
  by apply sublist_cons, sublist_skip, sublist_nil_l.
Qed.

Lemma mergeLines_sublist_base branchLines localLines :
  branchLines `sublist_of` mergeLines branchLines localLines.
Proof.
  revert localLines.
  induction branchLines as [|b branchLines IH]; intros [|l localLines];
    cbn [mergeLines]; try done.
  { apply sublist_nil_l. }
  change (b :: branchLines) with ([b] ++ branchLines).
  apply sublist_app; [|apply IH].
  destruct (String.eqb_spec b l) as [->|_]; [done|].
  by do 3 apply sublist_cons; apply sublist_skip, sublist_nil_l.
Qed.

Lemma prefix_cons_iff (x : string) branchLines localLines :
  x :: branchLines `prefix_of` x :: localLines
  ↔ branchLines `prefix_of` localLines.
Proof. split; [apply prefix_cons_inv_2 | apply prefix_cons]. Qed.

Lemma mergeLines_local_iff branchLines localLines :
  mergeLines branchLines localLines = localLines
  ↔ branchLines `prefix_of` localLines.
Proof.
  revert localLines.
  induction branchLines as [|b branchLines IH]; intros [|l localLines];
    cbn [mergeLines].
  - split; [intros; apply prefix_nil | done].
  - split; [intros; apply prefix_nil | done].
  - split; [done|]. by intros ?%prefix_nil_inv.
  - pose proof (mergeLines_length branchLines localLines) as Hlen.
    destruct (String.eqb_spec b l) as [->|Hne]; cbn [app].
    + rewrite prefix_cons_iff, <-IH.
      split; [by intros [= Heq] | by intros ->].
    + split.
      * intros Heq. apply (f_equal length) in Heq. cbn [length] in Heq. lia.
      * by intros ?%prefix_cons_inv_1.
Qed.

Lemma mergeLines_base_iff branchLines localLines :
  mergeLines branchLines localLines = branchLines
  ↔ localLines `prefix_of` branchLines.
Proof.
  revert localLines.
  induction branchLines as [|b branchLines IH]; intros [|l localLines];
    cbn [mergeLines].
  - split; [intros; apply prefix_nil | done].
  - split; [done|]. by intros ?%prefix_nil_inv.
  - split; [intros; apply prefix_nil | done].
  - pose proof (mergeLines_length branchLines localLines) as Hlen.
    destruct (String.eqb_spec b l) as [->|Hne]; cbn [app].
    + rewrite prefix_cons_iff, <-IH.
      split; [by intros [= Heq] | by intros ->].
    + split.
      * intros Heq. apply (f_equal length) in Heq. cbn [length] in Heq. lia.
      * intros ?%prefix_cons_inv_1. by subst.
Qed.

End mergeLines_facts.

(** X1: no line gets lost.  The lines of the base content, in their
    order, are among the lines of the output, and so are the lines of the
    target content. *)
Theorem generateDiff_keeps_lines (branchContent localContent : string) :
  Split branchContent LF
    `sublist_of` Split (generateDiff branchContent localContent) LF
  ∧ Split localContent LF
      `sublist_of` Split (generateDiff branchContent localContent) LF.
Proof.
  rewrite generateDiff_merge_lines. split; apply sublist_inserts_r.
  - apply mergeLines_sublist_base.
  - apply mergeLines_sublist_local.
Qed.

(** X2: the output has, beside the empty piece after its last newline, one
    line for every index of the longer input and four more for every
    index at which both inputs have a line and the lines differ. *)
Theorem generateDiff_line_total (branchContent localContent : string) :
  let branchLines := Split branchContent LF in
  let localLines := Split localContent LF in
  length (Split (generateDiff branchContent localContent) LF)
  = length branchLines `max` length localLines
    + 4 * conflictCount branchLines localLines + 1.
Proof.
  cbv zeta. by rewrite generateDiff_merge_lines, length_app, mergeLines_length.
Qed.

(** X3: the output is the target content and a newline exactly when the
    lines of the base content are the first lines of the target content,
    and it is the base content and a newline exactly when the lines of the
    target content are the first lines of the base content. *)
Theorem generateDiff_copies_iff_prefix (branchContent localContent : string) :
  (generateDiff branchContent localContent = localContent +:+ nl
   ↔ Split branchContent LF `prefix_of` Split localContent LF)
  ∧ (generateDiff branchContent localContent = branchContent +:+ nl
     ↔ Split localContent LF `prefix_of` Split branchContent LF).
Proof.
  assert (∀ content, unlines (Split content LF) = content +:+ nl) as Hun.
  { intros content. rewrite unlines_Join by apply Split_not_nil.
    by rewrite Join_Split. }
  assert (∀ lines content,
            Forall lineClean lines →
            unlines lines = content +:+ nl ↔ lines = Split content LF) as Hiff.
  { intros lines content Hclean. split.
    - intros Heq. rewrite <-Hun in Heq.
      apply (f_equal (λ s, Split s LF)) in Heq.
      rewrite !Split_unlines in Heq
        by (done || apply Split_pieces_clean).
      by apply app_inv_tail in Heq.
    - intros ->. apply Hun. }
  rewrite generateDiff_merge.
  rewrite !Hiff by (apply mergeLines_clean; apply Split_pieces_clean).
  split; [apply mergeLines_local_iff | apply mergeLines_base_iff].
Qed.

(** ** The branch queries, together *)

Section query_facts.

Context {provider : Provider} {os : OS}.

Implicit Types (e : Control) (changes : list object.Change)
  (targetTree baseTree : Tree).

Lemma fmap_sublist {A B : Type} (f : A → B) (l k : list A) :
  l `sublist_of` k → f <$> l `sublist_of` f <$> k.
Proof.
  induction 1; cbn [fmap list_fmap];
    [done | by apply sublist_skip | by apply sublist_cons].
Qed.

Lemma filter_sublist_of {A : Type} (p : A → bool) (l : list A) :
  List.filter p l `sublist_of` l.
Proof.
  induction l as [|x l IH]; cbn [List.filter]; [done|].
  destruct (p x); [by apply sublist_skip | by apply sublist_cons].
Qed.

Lemma filter_sublist_impl {A : Type} (p q : A → bool) (l : list A) :
  (∀ x, p x = true → q x = true) →
  List.filter p l `sublist_of` List.filter q l.
Proof.
  intros Himpl. induction l as [|x l IH]; cbn [List.filter]; [done|].
  destruct (p x) eqn:Hp.
  - rewrite (Himpl x Hp). by apply sublist_skip.
  - destruct (q x); [by apply sublist_cons | done].
Qed.

Lemma filter_orb_length {A : Type} (p q : A → bool) (l : list A) :
  length (List.filter (λ x, p x || q x) l)
  ≤ length (List.filter p l) + length (List.filter q l)
  ∧ ((∀ x, x ∈ l → p x = true → q x = false) →
     length (List.filter (λ x, p x || q x) l)
     = length (List.filter p l) + length (List.filter q l)).
Proof.
  induction l as [|x l [IHle IHeq]]; cbn [List.filter length]; [done|].
  split.
  - destruct (p x), (q x); cbn [orb length]; lia.
  - intros Hdisj.
    assert (length (List.filter (λ x, p x || q x) l)
            = length (List.filter p l) + length (List.filter q l)) as Hl.
    { apply IHeq. intros y Hy. apply Hdisj. by apply list_elem_of_further. }
    pose proof (Hdisj x (list_elem_of_here _ _)) as Hx.
    destruct (p x); [rewrite (Hx eq_refl)|]; destruct (q x);
      cbn [orb length]; lia.
Qed.

(** The names a listing collects: the short names of the references its
    test keeps, in the order of the iteration. *)
Lemma listReferences_names (keep : string → bool) (visited : list Reference)
    (branches : list string) :
  foldl (λ branches ref,
           if keep (Reference_Name ref)
           then branches ++ [ReferenceName_Short (Reference_Name ref)]
           else branches) branches visited
  = branches
    ++ ((λ ref, ReferenceName_Short (Reference_Name ref))
          <$> List.filter (λ ref, keep (Reference_Name ref)) visited).
Proof.
  revert branches.
  induction visited as [|ref visited IH]; intros branches;
    cbn [foldl List.filter].
  { by rewrite app_nil_r. }
  rewrite IH. destruct (keep (Reference_Name ref)); [|done].
  cbn [fmap list_fmap]. by rewrite <-app_assoc.
Qed.

(** What a listing returns without an error. *)
Lemma listReferences_ok e (keep : string → bool) (names : list string) :
  listReferences e keep = Returns names None
  ↔ ∃ r refs visited,
      repository e = Some r
      ∧ Repository_References r = Ok refs
      ∧ ReferenceIter_ForEach refs = (visited, None)
      ∧ names
        = (λ ref, ReferenceName_Short (Reference_Name ref))
            <$> List.filter (λ ref, keep (Reference_Name ref)) visited.
Proof.
  unfold listReferences. split.
  - destruct (repository e) as [r|] eqn:Hr; [|done].
    destruct (Repository_References r) as [refs|] eqn:Hrefs; [|done].
    destruct (ReferenceIter_ForEach refs) as [visited [msg|]] eqn:Hit; [done|].
    rewrite listReferences_names. intros [= <-]. by exists r, refs, visited.
  - intros (r & refs & visited & -> & -> & -> & ->).
    by rewrite listReferences_names.
Qed.

(** X4: when [ListAllBranches] returns its names, [ListBranches],
    [ListLocalBranches] and [ListRemoteBranches] return theirs, each list
    is part of the full list in the same order, and the full list has at
    most as many names as the two together; it has exactly as many when no
    reference is both a branch and a remote. *)
Theorem ListAllBranches_covers e (all : list string) :
  ListAllBranches e = Returns all None →
  ∃ locals remotes visited,
    ListBranches e = Returns locals None
    ∧ ListLocalBranches e = Returns locals None
    ∧ ListRemoteBranches e = Returns remotes None
    ∧ locals `sublist_of` all
    ∧ remotes `sublist_of` all
    ∧ length all ≤ length locals + length remotes
    ∧ (∃ r refs, repository e = Some r
                 ∧ Repository_References r = Ok refs
                 ∧ ReferenceIter_ForEach refs = (visited, None))
    ∧ ((∀ ref, ref ∈ visited →
          ReferenceName_IsBranch (Reference_Name ref) = true →
          ReferenceName_IsRemote (Reference_Name ref) = false) →
       length all = length locals + length remotes).
Proof.
  unfold ListAllBranches, ListLocalBranches, ListBranches, ListRemoteBranches.
  intros (r & refs & visited & Hr & Hrefs & Hit & ->)%listReferences_ok.
  eexists _, _, visited.
  split; [apply listReferences_ok; by exists r, refs, visited|].
  split; [apply listReferences_ok; by exists r, refs, visited|].
  split; [apply listReferences_ok; by exists r, refs, visited|].
  split.
  { apply fmap_sublist, filter_sublist_impl. by intros ref ->. }
  split.
  { apply fmap_sublist, filter_sublist_impl. intros ref ->.
    by rewrite orb_true_r. }
  rewrite !length_fmap.
  destruct (filter_orb_length
              (λ ref, ReferenceName_IsBranch (Reference_Name ref))
              (λ ref, ReferenceName_IsRemote (Reference_Name ref)) visited)
    as [Hle Heq].
  split; [exact Hle|]. split; [by exists r, refs | exact Heq].
Qed.

(** A bound repository is asked, never dereferenced as nil. *)
Lemma compareTrees_not_NilDeref (r : Repository) (branchName branchBase : string) :
  compareTrees (Some r) branchName branchBase ≠ NilDeref.
Proof.
  unfold compareTrees, try. repeat case_match; done.
Qed.

(** A comparison fails with an error that names the step and the branch. *)
Lemma compareTrees_Failed repo (branchName branchBase : string) (err : error) :
  compareTrees repo branchName branchBase = Failed err →
  ∃ cause,
    err ∈ [ ErrReference branchName cause; ErrReference branchBase cause;
            ErrCommit branchName cause; ErrCommit branchBase cause;
            ErrTree branchName cause; ErrTree branchBase cause;
            ErrCompare cause ].
Proof.
  unfold compareTrees, try. repeat case_match; try done.
  all: intros [= <-]; eexists;
    repeat first [apply list_elem_of_here | apply list_elem_of_further].
Qed.

(** What the iteration for one record does in [DiffSpecificFile]: it
    passes the record over, or it returns. *)
Lemma DiffSpecificFile_loop_cons targetTree baseTree (fileName : string)
    (change : object.Change) changes :
  let here :=
    DiffSpecificFile_loop targetTree baseTree fileName (change :: changes) in
  (((∃ action msg, object.Action change = (action, Some msg))
    ∨ object.Name (object.To change) ≠ fileName)
   ∧ here = DiffSpecificFile_loop targetTree baseTree fileName changes)
  ∨ (object.Name (object.To change) = fileName
     ∧ ((object.Action change = (merkletrie.Delete, None)
         ∧ here = Returns ∅ (Some ErrDeletedOrUnmodified))
        ∨ ((object.Action change = (merkletrie.Insert, None)
            ∨ object.Action change = (merkletrie.Modify, None))
           ∧ ((∃ msg, here = Returns ∅ (Some (ErrBaseContents msg)))
              ∨ (∃ msg, here = Returns ∅ (Some (ErrReadFile fileName msg)))
              ∨ (∃ msg, here = Returns ∅ (Some (ErrTargetContents msg)))
              ∨ (∃ baseContent targetContent,
                    here = Returns {[ fileName
                                      := generateDiff baseContent targetContent ]}
                             None))))).
Proof.
  cbv zeta. cbn [DiffSpecificFile_loop].
  destruct (Action_cases change)
    as [(_ & _ & msg & H)|[(_ & _ & H)|[(_ & _ & H)|(_ & _ & H)]]];
    rewrite H.
  { left. split; [left; eauto | done]. }
  all: case_bool_decide as Hname; [left; split; [by right | done]|].
  all: right; split; [by destruct (decide (object.Name (object.To change)
                                            = fileName)) | ].
  all: cbn [andb bool_decide decide_rel]; repeat case_bool_decide; try done.
  all: try (left; split; done).
  all: right; split; [eauto|].
  all: repeat case_match; simplify_eq; eauto 10.
Qed.

(** [DiffSpecificFile] answers "not found" exactly for the paths that are
    not the new path of an insertion or a modification. *)
Lemma DiffSpecificFile_loop_not_found targetTree baseTree (fileName : string)
    changes (m : gmap string string) (name : string) :
  DiffSpecificFile_loop targetTree baseTree fileName changes
  = Returns m (Some (ErrNotInDiff name)) →
  fileName ∉ (Path <$> List.filter addedOrModified (omap classifyRecord changes)).
Proof.
  induction changes as [|c changes IH]; [intros _ []%elem_of_nil|].
  rewrite omap_cons_eq.
  destruct (DiffSpecificFile_loop_cons targetTree baseTree fileName c changes)
    as [[Hskip ->]|[Hname Hret]].
  - intros Hrest. specialize (IH Hrest).
    destruct (classifyRecord_cases c)
      as [(Hc & a & msg & H)|[(Hc & H)|[(Hc & H)|(Hc & H)]]];
      rewrite Hc;
      cbn [List.filter addedOrModified fmap list_fmap Action Path String.eqb
           Ascii.eqb Bool.eqb orb]; try done.
    all: destruct Hskip as [(? & ? & Hs)|Hs]; [congruence|].
    all: apply not_elem_of_cons; split; [congruence | done].
  - destruct Hret as [[_ ->]|[_ [(? & ->)|[(? & ->)|[(? & ->)|(? & ? & ->)]]]]];
      discriminate.
Qed.

(** For a path that is not the empty string, the rejection "deleted or not
    modified" is never returned. *)
Lemma DiffSpecificFile_loop_never_rejects targetTree baseTree
    (fileName : string) changes (m : gmap string string) :
  fileName ≠ "" →
  DiffSpecificFile_loop targetTree baseTree fileName changes
  ≠ Returns m (Some ErrDeletedOrUnmodified).
Proof.
  intros Hname.
  induction changes as [|c changes IH]; [discriminate|].
  destruct (DiffSpecificFile_loop_cons targetTree baseTree fileName c changes)
    as [[_ ->]|[Hto Hret]]; [done|].
  destruct Hret as [[Hdel _]|[_ [(? & ->)|[(? & ->)|[(? & ->)|(? & ? & ->)]]]]];
    try discriminate.
  apply Action_Delete_To in Hdel. congruence.
Qed.

(** Whatever [DiffSpecificFile] returns is a map of the one file and no
    error, or no map and an error. *)
Lemma DiffSpecificFile_loop_shape targetTree baseTree (fileName : string)
    changes (m : gmap string string) (err : option error) :
  DiffSpecificFile_loop targetTree baseTree fileName changes = Returns m err →
  (err = None
   ∧ ∃ baseContent targetContent,
       m = {[ fileName := generateDiff baseContent targetContent ]})
  ∨ (m = ∅ ∧ ∃ failure, err = Some failure).
Proof.
  induction changes as [|c changes IH].
  { intros [= <- <-]. right. eauto. }
  destruct (DiffSpecificFile_loop_cons targetTree baseTree fileName c changes)
    as [[_ ->]|[_ Hret]]; [done|].
  destruct Hret as [[_ ->]|[_ [(? & ->)|[(? & ->)|[(? & ->)|(? & ? & ->)]]]]];
    intros [= <- <-]; eauto 10.
Qed.

Lemma DiffSpecificFile_loop_no_panic targetTree baseTree (fileName : string)
    changes :
  DiffSpecificFile_loop targetTree baseTree fileName changes ≠ Panics.
Proof.
  induction changes as [|c changes IH]; [discriminate|].
  destruct (DiffSpecificFile_loop_cons targetTree baseTree fileName c changes)
    as [[_ ->]|[_ Hret]]; [done|].
  destruct Hret as [[_ ->]|[_ [(? & ->)|[(? & ->)|[(? & ->)|(? & ? & ->)]]]]];
    discriminate.
Qed.

(** X5: every entry [GetFileChanges] returns has the action ["added"],
    ["modified"] or ["deleted"]. *)
Theorem GetFileChanges_actions e (branchName baseBranch : string)
    (fileChanges : list FileChange) (err : option error) :
  GetFileChanges e branchName baseBranch = Returns fileChanges err →
  Forall (λ fc, Action fc = "added" ∨ Action fc = "modified"
                ∨ Action fc = "deleted") fileChanges.
Proof.
  unfold GetFileChanges.
  destruct (repository e) as [r|]; [|by intros [= <- <-]].
  destruct (compareTrees (Some r) branchName baseBranch)
    as [[[targetTree baseTree] changes]| |]; [|by intros [= <- <-]|done].
  rewrite GetFileChanges_loop_classifies. intros [= <- <-]. cbn [app].
  induction changes as [|c changes IH]; [done|].
  rewrite omap_cons_eq.
  destruct (classifyRecord_cases c)
    as [(Hc & a & msg & H)|[(Hc & H)|[(Hc & H)|(Hc & H)]]];
    rewrite Hc; [done|constructor; [cbn; auto | done]..].
Qed.

(** X6: when [GetAllChangedFiles] returns its paths, [GetModifiedFiles]
    returns paths too, and they are part of the former, in the same
    order. *)
Theorem GetModifiedFiles_sublist e (branchName baseBranch : string)
    (all : list string) :
  GetAllChangedFiles e branchName baseBranch = Returns all None →
  ∃ modified,
    GetModifiedFiles e branchName baseBranch = Returns modified None
    ∧ modified `sublist_of` all.
Proof.
  unfold GetAllChangedFiles, GetModifiedFiles.
  destruct (repository e) as [r|]; [|done].
  destruct (compareTrees (Some r) branchName baseBranch)
    as [[[targetTree baseTree] changes]| |]; [|done..].
  rewrite GetAllChangedFiles_loop_paths, GetModifiedFiles_loop_paths.
  intros [= <-]. eexists. split; [done|]. cbn [app].
  apply fmap_sublist, filter_sublist_of.
Qed.


(** X8: when [GetModifiedFiles] returns its paths and [fileName] is not
    the empty string, [DiffSpecificFile] answers "not found in the
    differences" exactly when [fileName] is not one of those paths, and it
    never answers "deleted or not modified". *)
Theorem DiffSpecificFile_finds_modified e (branchName branchBase fileName : string)
    (modified : list string) :
  GetModifiedFiles e branchName branchBase = Returns modified None →
  fileName ≠ "" →
  (DiffSpecificFile e branchName branchBase fileName
   = Returns ∅ (Some (ErrNotInDiff fileName))
   ↔ fileName ∉ modified)
  ∧ ∀ m, DiffSpecificFile e branchName branchBase fileName
         ≠ Returns m (Some ErrDeletedOrUnmodified).
Proof.
  unfold GetModifiedFiles, DiffSpecificFile.
  destruct (compareTrees (repository e) branchName branchBase)
    as [[[targetTree baseTree] changes]| |]; [|done..].
  rewrite GetModifiedFiles_loop_paths. intros [= <-] Hname. cbn [app].
  split; [split|].
  - apply DiffSpecificFile_loop_not_found.
  - intros Hnot. apply DiffSpecificFile_loop_absent.
    by apply new_paths_of_records.
  - intros m. by apply DiffSpecificFile_loop_never_rejects.
Qed.

(** X9: what [DiffSpecificFile] returns is either no error and a map that
    holds the requested file alone, with a diff for it, or an error and
    the nil map. *)
Theorem DiffSpecificFile_result e (branchName branchBase fileName : string)
    (m : gmap string string) (err : option error) :
  DiffSpecificFile e branchName branchBase fileName = Returns m err →
  (err = None
   ∧ ∃ baseContent targetContent,
       m = {[ fileName := generateDiff baseContent targetContent ]}
       ∧ m !! fileName = Some (generateDiff baseContent targetContent))
  ∨ (m = ∅ ∧ ∃ failure, err = Some failure).
Proof.
  unfold DiffSpecificFile.
  destruct (compareTrees (repository e) branchName branchBase)
    as [[[targetTree baseTree] changes]| |]; [| |done].
  - intros [(-> & b & t & ->)|Herr]%DiffSpecificFile_loop_shape.
    + left. split; [done|]. exists b, t. by rewrite lookup_singleton_eq.
    + by right.
  - intros [= <- <-]. right. eauto.
Qed.

End query_facts.

(** ** The diff and the download, against the list of modified files *)

Section composition_facts.

Context {provider : Provider} {os : OS}.

Implicit Types (e : Control) (changes : list object.Change)
  (targetTree baseTree : Tree).

(** X10: for a file the provider reports as modified, whose base and
    target contents can be read, [GetFileChanges] lists the file as
    ["modified"] and [DiffSpecificFile] returns, under the name of the
    file, the diff with the base content as "theirs" and the target
    content as "ours". *)
Theorem DiffSpecificFile_modified_file e (branchName branchBase fileName : string)
    targetTree baseTree (earlier rest : list object.Change)
    (modified : object.Change) (baseFile targetFile : File)
    (baseContent targetContent : string) :
  compareTrees (repository e) branchName branchBase
  = Got (targetTree, baseTree, earlier ++ modified :: rest) →
  Forall (λ c, object.Name (object.To c) ≠ fileName) earlier →
  object.From modified ≠ object.empty →
  object.To modified ≠ object.empty →
  object.Name (object.To modified) = fileName →
  Tree_File baseTree fileName = Ok baseFile →
  File_Contents baseFile = Ok baseContent →
  Tree_File targetTree fileName = Ok targetFile →
  File_Contents targetFile = Ok targetContent →
  (∃ fileChanges,
      GetFileChanges e branchName branchBase = Returns fileChanges None
      ∧ {| Path := fileName; Action := "modified" |} ∈ fileChanges)
  ∧ DiffSpecificFile e branchName branchBase fileName
    = Returns {[ fileName := generateDiff baseContent targetContent ]} None.
Proof.
  intros Hcmp Hearlier Hfrom Hto Hname Hbase Hbc Htarget Htc.
  assert (object.Action modified = (merkletrie.Modify, None)) as Hact.
  { destruct (Action_cases modified)
      as [(? & _ & _)|[(? & _ & _)|[(_ & ? & _)|(_ & _ & H)]]]; done. }
  split.
  - rewrite (GetFileChanges_of_changes e _ _ _ _ _ Hcmp).
    eexists. split; [done|].
    rewrite omap_app, omap_cons_eq. unfold classifyRecord at 2.
    rewrite Hact, Hname. apply elem_of_app. right. apply list_elem_of_here.
  - unfold DiffSpecificFile. rewrite Hcmp.
    rewrite (DiffSpecificFile_loop_skip _ _ _ _ _ Hearlier).
    cbn [DiffSpecificFile_loop]. rewrite Hact.
    rewrite (bool_decide_eq_false_2 (_ ≠ fileName)) by (intros H; by apply H).
    rewrite Hbase, Hbc, Htarget, Htc.
    rewrite (bool_decide_eq_false_2 (merkletrie.Modify ≠ merkletrie.Modify))
      by (intros H; by apply H).
    by rewrite andb_false_r.
Qed.

(** X11: the paths [DownloadModifiedFiles] returns are the first of the
    destinations of the paths of [GetModifiedFiles], each joined to the
    destination directory; without an error they are all of them. *)
Theorem DownloadModifiedFiles_paths e (branchName branchBase destDir : string)
    (fs fs' : Fs) (downloaded modified : list string) (err : option error) :
  DownloadModifiedFiles e branchName branchBase destDir fs
  = (fs', Returns downloaded err) →
  GetModifiedFiles e branchName branchBase = Returns modified None →
  downloaded `prefix_of` (filepath_Join destDir <$> modified)
  ∧ (err = None → downloaded = filepath_Join destDir <$> modified).
Proof.
  unfold DownloadModifiedFiles, GetModifiedFiles.
  destruct (compareTrees (repository e) branchName branchBase)
    as [[[targetTree baseTree] changes]| |]; [|done..].
  rewrite GetModifiedFiles_loop_paths. cbn [app].
  destruct (DownloadModifiedFiles_loop targetTree destDir changes []
              (fst (os_RemoveAll destDir fs)))
    as [fs1 [downloaded1 err1]] eqn:Hloop.
  intros [= -> -> ->] [= <-].
  destruct err as [failure|].
  - split; [|done].
    destruct (DownloadModifiedFiles_loop_error _ _ _ _ _ _ _ _ Hloop)
      as (earlier & failing & rest & fsW & -> & He & _).
    rewrite (DownloadModifiedFiles_loop_written _ _ _ _ _ _ _ He). cbn [app].
    rewrite omap_app, List.filter_app, !fmap_app. by apply prefix_app_r.
  - rewrite (DownloadModifiedFiles_loop_written _ _ _ _ _ _ _ Hloop).
    done.
Qed.

(** X12: the destination is cleared before the branches are looked up:
    when the comparison of the branches fails, as [GetModifiedFiles]
    shows by returning an error, [DownloadModifiedFiles] returns the same
    error and no path, and leaves the file system as [os.RemoveAll] of the
    destination left it. *)
Theorem DownloadModifiedFiles_clears_first e
    (branchName branchBase destDir : string) (fs : Fs)
    (modified : list string) (err : error) :
  GetModifiedFiles e branchName branchBase = Returns modified (Some err) →
  DownloadModifiedFiles e branchName branchBase destDir fs
  = (fst (os_RemoveAll destDir fs), Returns [] (Some err)).
Proof.
  unfold DownloadModifiedFiles, GetModifiedFiles.
  destruct (compareTrees (repository e) branchName branchBase)
    as [[[targetTree baseTree] changes]| |]; [done| |done].
  by intros [= <- <-].
Qed.

(** X13: on an initialized handle, when [GetFileChanges] returns an error
    it returns no entry, the error names a step of the resolution of one
    of the two branches or the comparison of the trees, and
    [GetModifiedFiles], [GetAllChangedFiles] and [DiffSpecificFile] return
    the same error. *)
Theorem queries_fail_alike e (branchName branchBase fileName : string)
    (fileChanges : list FileChange) (err : error) :
  IsInitialized e = true →
  GetFileChanges e branchName branchBase = Returns fileChanges (Some err) →
  fileChanges = []
  ∧ GetModifiedFiles e branchName branchBase = Returns [] (Some err)
  ∧ GetAllChangedFiles e branchName branchBase = Returns [] (Some err)
  ∧ DiffSpecificFile e branchName branchBase fileName = Returns ∅ (Some err)
  ∧ ∃ cause,
      err ∈ [ ErrReference branchName cause; ErrReference branchBase cause;
              ErrCommit branchName cause; ErrCommit branchBase cause;
              ErrTree branchName cause; ErrTree branchBase cause;
              ErrCompare cause ].
Proof.
  unfold IsInitialized, GetFileChanges, GetModifiedFiles, GetAllChangedFiles,
    DiffSpecificFile.
  destruct (repository e) as [r|]; [intros _|done].
  destruct (compareTrees (Some r) branchName branchBase)
    as [[[targetTree baseTree] changes]| |] eqn:Hcmp; [done| |done].
  intros [= <- <-]. repeat split.
  by apply (compareTrees_Failed (Some r)).
Qed.

End composition_facts.

(** ** The further properties on the small repositories *)

(** X4 on the repository with a remote branch and a tag. *)
Lemma ListAllBranches_covers_witness :
  ListAllBranches DemoRemote.bound
  = Returns ["main"; "origin/main"; "feature"] None
  ∧ ListBranches DemoRemote.bound = Returns ["main"; "feature"] None
  ∧ ListRemoteBranches DemoRemote.bound = Returns ["origin/main"] None.
Proof.
  destruct (ListAllBranches_covers (provider := Demo.provider)
              DemoRemote.bound ["main"; "origin/main"; "feature"])
    as (locals & remotes & visited & _); [reflexivity|].
  repeat split.
Defined.

(** X5 on the small repository. *)
Lemma GetFileChanges_actions_witness :
  Forall (λ fc, Action fc = "added" ∨ Action fc = "modified"
                ∨ Action fc = "deleted") Demo.fileChanges.
Proof.
  apply (GetFileChanges_actions (provider := Demo.provider)
           Demo.bound "feature" "main" Demo.fileChanges None).
  reflexivity.
Defined.

(** X6 on the small repository. *)
Lemma GetModifiedFiles_sublist_witness :
  ∃ modified,
    GetModifiedFiles Demo.bound "feature" "main" = Returns modified None
    ∧ modified `sublist_of` ["a.txt"; "newfile.txt"; "old.txt"].
Proof.
  apply (GetModifiedFiles_sublist (provider := Demo.provider)
           Demo.bound "feature" "main").
  reflexivity.
Defined.


(** X8 on the small repository: [keep.txt] did not change. *)
Lemma DiffSpecificFile_finds_modified_witness :
  DiffSpecificFile Demo.bound "feature" "main" "keep.txt"
  = Returns ∅ (Some (ErrNotInDiff "keep.txt")).
Proof.
  destruct (DiffSpecificFile_finds_modified (provider := Demo.provider)
              Demo.bound "feature" "main" "keep.txt" ["a.txt"; "newfile.txt"])
    as [[_ Hnot] _]; [reflexivity | discriminate |].
  apply Hnot. apply (bool_decide_unpack _). reflexivity.
Defined.

(** X9 on the small repository. *)
Lemma DiffSpecificFile_result_witness :
  ∃ baseContent targetContent,
    ({[ "a.txt" := conflictBlock "2" "1" ]} : gmap string string)
    = {[ "a.txt" := generateDiff baseContent targetContent ]}.
Proof.
  destruct (DiffSpecificFile_result (provider := Demo.provider)
              Demo.bound "feature" "main" "a.txt"
              {[ "a.txt" := conflictBlock "2" "1" ]} None)
    as [(_ & b & t & Hm & _)|(_ & ? & ?)]; [reflexivity| |done].
  by exists b, t.
Defined.

(** X10 on the small repository: [a.txt] holds [1] on the base branch and
    [2] on the target branch. *)
Lemma DiffSpecificFile_modified_file_witness :
  DiffSpecificFile Demo.bound "feature" "main" "a.txt"
  = Returns {[ "a.txt" := generateDiff "1" "2" ]} None
  ∧ generateDiff "1" "2" = conflictBlock "2" "1".
Proof.
  split; [|reflexivity].
  apply (DiffSpecificFile_modified_file (provider := Demo.provider)
           Demo.bound "feature" "main" "a.txt" Demo.targetTree Demo.baseTree
           []
           [ object.mkChange object.empty (Demo.entryOf "newfile.txt" "hello");
             object.mkChange (Demo.entryOf "old.txt" "o") object.empty ]
           (object.mkChange (Demo.entryOf "a.txt" "1") (Demo.entryOf "a.txt" "2"))
           "1" "2" "1" "2");
    try reflexivity; try discriminate.
  constructor.
Defined.

(** X11 on the small repository and a disk that refuses nothing. *)
Lemma DownloadModifiedFiles_paths_witness :
  ∃ fs',
    DownloadModifiedFiles Demo.bound "feature" "main" "out"
      {| Demo.files := ∅; Demo.denied := [] |}
    = (fs', Returns ["out/a.txt"; "out/newfile.txt"] None)
    ∧ ["out/a.txt"; "out/newfile.txt"]
      = filepath_Join "out" <$> ["a.txt"; "newfile.txt"].
Proof.
  eexists. split; [reflexivity|].
  eapply (DownloadModifiedFiles_paths (provider := Demo.provider)
            (os := Demo.os) Demo.bound "feature" "main" "out"
            {| Demo.files := ∅; Demo.denied := [] |} _
            ["out/a.txt"; "out/newfile.txt"] ["a.txt"; "newfile.txt"] None);
    reflexivity.
Defined.

(** X12 on the small repository: the branch [nobranch] does not exist, and
    the stale file under [out] is gone all the same. *)
Lemma DownloadModifiedFiles_clears_first_witness :
  DownloadModifiedFiles Demo.bound "nobranch" "main" "out" Demo.disk0
  = (DemoRemote.cleared,
     Returns [] (Some (ErrReference "nobranch" "reference not found"))).
Proof.
  apply (DownloadModifiedFiles_clears_first (provider := Demo.provider)
           (os := Demo.os) Demo.bound "nobranch" "main" "out" Demo.disk0 []).
  reflexivity.
Defined.

(** X13 on the small repository: the base branch does not exist. *)
Lemma queries_fail_alike_witness :
  GetModifiedFiles Demo.bound "feature" "nobranch"
  = Returns [] (Some (ErrReference "nobranch" "reference not found"))
  ∧ DiffSpecificFile Demo.bound "feature" "nobranch" "a.txt"
    = Returns ∅ (Some (ErrReference "nobranch" "reference not found")).
Proof.
  destruct (queries_fail_alike (provider := Demo.provider)
              Demo.bound "feature" "nobranch" "a.txt" []
              (ErrReference "nobranch" "reference not found"))
    as (_ & Hmod & _ & Hdiff & _); [reflexivity | reflexivity |].
  by split.
Defined.

(** ** The older package and the handlers *)

Section handler_facts.

Context {provider : Provider} {opener : Opener} {json : JSON} {disk : Disk}.

Implicit Types (globalControl : Control) (query : http.Values).

(** X14: [GetModifiedFiles] of the package [src/git] never panics: on a
    handle without a repository it returns the error "not initialized",
    and on every other handle it returns what [GetModifiedFiles] of
    [internal/git] returns. *)
Theorem legacy_GetModifiedFiles (c : Control) (branchName baseBranch : string) :
  legacy.GetModifiedFiles c branchName baseBranch ≠ Panics
  ∧ (IsInitialized c = false →
     legacy.GetModifiedFiles c branchName baseBranch
     = Returns [] (Some ErrNotInitialized)
     ∧ GetModifiedFiles c branchName baseBranch = Panics)
  ∧ (IsInitialized c = true →
     legacy.GetModifiedFiles c branchName baseBranch
     = GetModifiedFiles c branchName baseBranch).
Proof.
  unfold legacy.GetModifiedFiles, GetModifiedFiles, IsInitialized.
  destruct (repository c) as [r|]; [|done].
  pose proof (compareTrees_not_NilDeref r branchName baseBranch).
  by destruct (compareTrees (Some r) branchName baseBranch) as [[[??]?]| |].
Qed.

Lemma setError_sent (w : http.ResponseWriter) (message : string) :
  http.sent w = None →
  http.status (setError w message) = Some 500
  ∧ http.contentType (setError w message) = Some "application/json"
  ∧ http.body (setError w message)
    = http.body w +:+ json_Marshal_ErrorStr message.
Proof.
  intros Hsent.
  unfold setError, http.Write, http.WriteHeader, http.Header_Set,
    http.status, http.contentType.
  cbn. rewrite Hsent. cbn. by rewrite lookup_insert_eq.
Qed.

(** On an initialized handle [DiffSpecificFile] returns, and what it
    returns is a map of the one file, or an error. *)
Lemma DiffSpecificFile_outcome (e : Control)
    (branchName branchBase fileName : string) :
  IsInitialized e = true →
  ∃ m err,
    DiffSpecificFile e branchName branchBase fileName = Returns m err
    ∧ ((err = None
        ∧ ∃ baseContent targetContent,
            m = {[ fileName := generateDiff baseContent targetContent ]})
       ∨ (m = ∅ ∧ ∃ failure, err = Some failure)).
Proof.
  unfold IsInitialized, DiffSpecificFile.
  destruct (repository e) as [r|]; [intros _|done].
  pose proof (compareTrees_not_NilDeref r branchName branchBase) as Hcmp.
  destruct (compareTrees (Some r) branchName branchBase)
    as [[[targetTree baseTree] changes]|err|]; [| |done].
  - pose proof (DiffSpecificFile_loop_no_panic targetTree baseTree fileName
                  changes) as Hnp.
    destruct (DiffSpecificFile_loop targetTree baseTree fileName changes)
      as [m err|] eqn:Hloop; [|done].
    exists m, err. split; [done|].
    by apply (DiffSpecificFile_loop_shape _ _ _ _ _ _ Hloop).
  - eexists _, _. split; [done|]. right. eauto.
Qed.

(** No error of the queries reads "file not found in diff". *)
Lemma Error_not_file_not_found (err : error) :
  Error err ≠ "file not found in diff".
Proof. destruct err; cbv [Error String.append]; discriminate. Qed.

Lemma noControlMessage_not_file_not_found :
  noControlMessage ≠ "file not found in diff".
Proof. discriminate. Qed.

(** X15: [getChanges] never panics.  To a fresh writer it answers in JSON:
    with status 200 and the encoded list of [GetModifiedFiles], when the
    handle is initialized, both branches are given and the query returns
    no error; with status 500 and an encoded error otherwise, which on a
    handle that is not initialized is the error "no git control found". *)
Theorem getChanges_response globalControl query :
  let yourBranch := http.Get query "yourBranch" in
  let baseBranch := http.Get query "baseBranch" in
  ∃ w,
    getChanges globalControl query http.fresh = Responded w
    ∧ http.contentType w = Some "application/json"
    ∧ ((http.status w = Some 200
        ∧ IsInitialized globalControl = true
        ∧ yourBranch ≠ "" ∧ baseBranch ≠ ""
        ∧ ∃ list,
            GetModifiedFiles globalControl yourBranch baseBranch
            = Returns list None
            ∧ http.body w = json_Marshal_strings list)
       ∨ (http.status w = Some 500
          ∧ ∃ message,
              http.body w = json_Marshal_ErrorStr message
              ∧ (IsInitialized globalControl = false →
                 message = noControlMessage)
              ∧ (IsInitialized globalControl = true →
                 yourBranch ≠ "" → baseBranch ≠ "" →
                 ∃ list err,
                   GetModifiedFiles globalControl yourBranch baseBranch
                   = Returns list (Some err)
                   ∧ message = Error err))).
Proof.
  cbv zeta.
  set (yourBranch := http.Get query "yourBranch").
  set (baseBranch := http.Get query "baseBranch").
  set (Q := λ message : string,
         (IsInitialized globalControl = false → message = noControlMessage)
         ∧ (IsInitialized globalControl = true →
            yourBranch ≠ "" → baseBranch ≠ "" →
            ∃ list err,
              GetModifiedFiles globalControl yourBranch baseBranch
              = Returns list (Some err)
              ∧ message = Error err)).
  set (good := λ w : http.ResponseWriter,
         http.status w = Some 200
         ∧ IsInitialized globalControl = true
         ∧ yourBranch ≠ "" ∧ baseBranch ≠ ""
         ∧ ∃ list,
             GetModifiedFiles globalControl yourBranch baseBranch
             = Returns list None
             ∧ http.body w = json_Marshal_strings list).
  assert (∀ message, Q message →
            ∃ w, Responded (setError (setJsonHeaders http.fresh) message)
                 = Responded w
                 ∧ http.contentType w = Some "application/json"
                 ∧ (good w
                    ∨ (http.status w = Some 500
                       ∧ ∃ message, http.body w = json_Marshal_ErrorStr message
                                    ∧ Q message))) as Hfail.
  { intros message HQ. eexists. split; [done|].
    destruct (setError_sent (setJsonHeaders http.fresh) message eq_refl)
      as (Hst & Hct & Hbody).
    split; [done|]. right. split; [done|]. by exists message. }
  unfold getChanges. fold yourBranch baseBranch.
  destruct (IsInitialized globalControl) eqn:Hinit; cbn [negb].
  2: { apply Hfail. subst Q. cbn beta. split; [done|by intros]. }
  destruct (String.eqb_spec yourBranch "") as [Hy|Hy].
  { apply Hfail. subst Q. cbn beta. split; [done|]. by intros. }
  destruct (String.eqb_spec baseBranch "") as [Hb|Hb].
  { apply Hfail. subst Q. cbn beta. split; [done|]. by intros. }
  assert (GetModifiedFiles globalControl yourBranch baseBranch ≠ Panics) as Hnp.
  { unfold IsInitialized in Hinit. unfold GetModifiedFiles.
    destruct (repository globalControl) as [r|] eqn:Hr; [|done].
    pose proof (compareTrees_not_NilDeref r yourBranch baseBranch).
    by destruct (compareTrees (Some r) _ _) as [[[??]?]| |]. }
  destruct (GetModifiedFiles globalControl yourBranch baseBranch)
    as [list [err|]|] eqn:Hq; [| |done].
  - apply Hfail. subst Q. cbn beta. split; [done|]. eauto.
  - eexists. split; [done|].
    unfold http.contentType. cbn. split; [by rewrite lookup_insert_eq|].
    left. subst good. cbn beta. eauto 10.
Qed.

(** X16: [getDiff] never panics.  To a fresh writer it answers either with
    status 200, the content type [text/plain] and the diff that
    [DiffSpecificFile] returned for the file, or with status 500 and an
    encoded error in JSON; the error is never "file not found in diff",
    the answer prepared for a map without the file. *)
Theorem getDiff_response globalControl query :
  let yourBranch := http.Get query "yourBranch" in
  let baseBranch := http.Get query "baseBranch" in
  let file := http.Get query "file" in
  ∃ w,
    getDiff globalControl query http.fresh = Responded w
    ∧ ((http.status w = Some 200
        ∧ http.contentType w = Some "text/plain"
        ∧ DiffSpecificFile globalControl yourBranch baseBranch file
          = Returns {[ file := http.body w ]} None
        ∧ ∃ baseContent targetContent,
            http.body w = generateDiff baseContent targetContent)
       ∨ (http.status w = Some 500
          ∧ http.contentType w = Some "application/json"
          ∧ ∃ message,
              http.body w = json_Marshal_ErrorStr message
              ∧ message ≠ "file not found in diff")).
Proof.
  cbv zeta. unfold getDiff.
  assert (∀ message, message ≠ "file not found in diff" →
            http.status (setError http.fresh message) = Some 500
            ∧ http.contentType (setError http.fresh message)
              = Some "application/json"
            ∧ ∃ message',
                http.body (setError http.fresh message)
                = json_Marshal_ErrorStr message'
                ∧ message' ≠ "file not found in diff") as Hfail.
  { intros message Hm.
    destruct (setError_sent http.fresh message eq_refl) as (Hst & Hct & Hbody).
    split; [done|]. split; [done|]. by exists message. }
  destruct (IsInitialized globalControl) eqn:Hinit; cbn [negb];
    [|eexists; split; [done|]; by right; apply Hfail].
  destruct (String.eqb (http.Get query "yourBranch") "");
    [eexists; split; [done|]; by right; apply Hfail|].
  destruct (String.eqb (http.Get query "baseBranch") "");
    [eexists; split; [done|]; by right; apply Hfail|].
  destruct (String.eqb (http.Get query "file") "");
    [eexists; split; [done|]; by right; apply Hfail|].
  destruct (DiffSpecificFile_outcome globalControl
              (http.Get query "yourBranch") (http.Get query "baseBranch")
              (http.Get query "file") Hinit)
    as (m & err & Hq & [(-> & b & t & ->)|(-> & failure & ->)]);
    rewrite Hq.
  2: { eexists. split; [done|]. right.
       apply Hfail, Error_not_file_not_found. }
  rewrite lookup_singleton_eq. eexists. split; [done|]. left.
  unfold http.contentType. cbn.
  split; [done|]. split; [by rewrite lookup_insert_eq|].
  split; [done|]. by exists b, t.
Qed.

(** X17: a request to bind a directory that exists but cannot be opened as
    a repository unbinds the handle, whatever it was bound to: the answer
    has status 500 and an error that names the directory and not the
    cause, and the next [getChanges] answers "no git control found". *)
Theorem gitBranchHandler_failed_open globalControl query (cause : string) :
  let dir := http.Get query "dir" in
  dir ≠ "" →
  os_Stat_IsNotExist dir = false →
  git_PlainOpen dir = (None, Some cause) →
  ∃ w,
    gitBranchHandler globalControl query http.fresh
    = ({| repository := None |}, Responded w)
    ∧ http.status w = Some 500
    ∧ http.body w
      = json_Marshal_ErrorStr
          (errors_Join
             [ " - ";
               "certifique-se de que o diretório é um repositório git válido";
               " - ";
               "diretório: " +:+ dir ])
    ∧ ∀ query',
        ∃ w',
          getChanges (fst (gitBranchHandler globalControl query http.fresh))
            query' http.fresh
          = Responded w'
          ∧ http.status w' = Some 500
          ∧ http.body w' = json_Marshal_ErrorStr noControlMessage.
Proof.
  cbv zeta. intros Hdir Hexists Hopen.
  assert (gitBranchHandler globalControl query http.fresh
          = ({| repository := None |},
             Responded
               (setError (setJsonHeaders http.fresh)
                  (errors_Join
                     [ " - ";
                       "certifique-se de que o diretório é um repositório git válido";
                       " - ";
                       "diretório: " +:+ http.Get query "dir" ])))) as Hrun.
  { unfold gitBranchHandler, NewRepoLocal.
    rewrite (proj2 (String.eqb_neq _ _) Hdir), Hexists, Hopen. done. }
  rewrite Hrun. eexists. split; [done|].
  destruct (setError_sent (setJsonHeaders http.fresh)
              (errors_Join
                 [ " - ";
                   "certifique-se de que o diretório é um repositório git válido";
                   " - ";
                   "diretório: " +:+ http.Get query "dir" ]) eq_refl)
    as (Hst & _ & Hbody).
  split; [done|]. split; [done|].
  intros query'. cbn [fst]. unfold getChanges, IsInitialized. cbn [repository negb].
  eexists. split; [done|].
  destruct (setError_sent (setJsonHeaders http.fresh) noControlMessage eq_refl)
    as (Hst' & _ & Hbody').
  by split.
Qed.

End handler_facts.

Import (hints) DemoHost.

(** X17 on the host: the handle is bound to the small repository when the
    directory [/empty], which holds no repository, is asked for. *)
Lemma gitBranchHandler_failed_open_witness :
  fst (gitBranchHandler Demo.bound (DemoHost.dirQuery "/empty") http.fresh)
  = {| repository := None |}
  ∧ getChanges Demo.bound DemoHost.branchesQuery http.fresh
    = Responded
        {| http.header := {[ "Content-Type" := "application/json" ]};
           http.sent := Some (200, {[ "Content-Type" := "application/json" ]});
           http.body := "list:a.txt,newfile.txt" |}.
Proof.
  destruct (gitBranchHandler_failed_open (provider := Demo.provider)
              (opener := DemoHost.opener) (json := DemoHost.json)
              (disk := DemoHost.disk)
              Demo.bound (DemoHost.dirQuery "/empty")
              "repository does not exist")
    as (w & Hrun & _); [discriminate | reflexivity | reflexivity |].
  split; [by rewrite Hrun | reflexivity].
Defined.

(** ** The diff of an output directory *)

Section output_facts.

Context {provider : Provider} {output : OutputDir}.

Implicit Types (tree : Tree) (entry : WalkEntry) (entries : list WalkEntry)
  (diffs : gmap string string).

(** A call that returns no error leaves the map as it is, or adds the diff
    of a file that differs. *)
Lemma DiffOutputWithBranch_fn_ok tree (outputDir : string) diffs diffs' entry :
  DiffOutputWithBranch_fn tree outputDir diffs entry = (diffs', None) →
  (diffs' = diffs
   ∧ ∀ relPath branchContent localContent,
       ¬ differs tree outputDir entry relPath branchContent localContent)
  ∨ ∃ relPath branchContent localContent,
      differs tree outputDir entry relPath branchContent localContent
      ∧ diffs' = <[ relPath := generateDiff branchContent localContent ]> diffs.
Proof.
  unfold DiffOutputWithBranch_fn, differs.
  destruct (entryErr entry) as [cause|]; [done|].
  destruct (entryIsDir entry) eqn:Hdir.
  { intros [= <-]. left. split; [done|]. intros ??? (_ & ? & _). done. }
  destruct (filepath_Rel outputDir (entryPath entry)) as [rel|msg] eqn:Hrel;
    [|done].
  destruct (Tree_File tree (filepath_ToSlash rel)) as [branchFile|msg] eqn:Hf.
  2: { intros [= <-]. left. split; [done|].
       intros ??? (_ & _ & (rel' & [= <-] & ->) & (? & ? & _) & _). congruence. }
  destruct (File_Contents branchFile) as [branchContent|msg] eqn:Hbc; [|done].
  destruct (os_ReadFile (entryPath entry)) as [localContent|msg] eqn:Hlc;
    [|done].
  destruct (String.eqb_spec localContent branchContent) as [Heq|Hne].
  - intros [= <-]. left. split; [done|].
    intros ??? (_ & _ & (rel' & [= <-] & ->) & (f & Hf' & Hbc') & [= <-] & Hne).
    rewrite Hf in Hf'. injection Hf' as <-. congruence.
  - intros [= <-]. right. exists (filepath_ToSlash rel), branchContent,
      localContent.
    split; [|done]. split; [done|]. split; [done|].
    split; [by exists rel|]. split; [by exists branchFile|done].
Qed.

(** A walk that returns no error gives a map whose entries are diffs of
    files that differ, and that has an entry for every such file. *)
Lemma DiffOutputWithBranch_walk_ok tree (outputDir : string) entries
    diffs diffs' :
  DiffOutputWithBranch_walk tree outputDir entries diffs = (diffs', None) →
  (∀ relPath diff, diffs' !! relPath = Some diff →
     diffs !! relPath = Some diff
     ∨ ∃ entry branchContent localContent,
         entry ∈ entries
         ∧ differs tree outputDir entry relPath branchContent localContent
         ∧ diff = generateDiff branchContent localContent)
  ∧ (∀ relPath, is_Some (diffs !! relPath) → is_Some (diffs' !! relPath))
  ∧ (∀ entry relPath branchContent localContent,
       entry ∈ entries →
       differs tree outputDir entry relPath branchContent localContent →
       is_Some (diffs' !! relPath)).
Proof.
  revert diffs.
  induction entries as [|entry entries IH]; intros diffs.
  { intros [= <-]. split; [eauto|]. split; [done|].
    by intros ???? ?%elem_of_nil. }
  cbn [DiffOutputWithBranch_walk].
  destruct (DiffOutputWithBranch_fn tree outputDir diffs entry)
    as [diffs1 [err|]] eqn:Hfn; [done|].
  intros Hwalk. destruct (IH _ Hwalk) as (Hsound & Hgrow & Hcomplete).
  destruct (DiffOutputWithBranch_fn_ok _ _ _ _ _ Hfn)
    as [[-> Hnone]|(rel & bc & lc & Hdiff & ->)].
  - split; [|split].
    + intros relPath diff Hin.
      destruct (Hsound _ _ Hin) as [?|(x & ? & ? & ? & ?)]; [by left|].
      right. eexists _, _, _. split; [by apply list_elem_of_further|done].
    + done.
    + intros x relPath ?? [->|Hx]%elem_of_cons Hd; [by destruct (Hnone _ _ _ Hd)|].
      by eapply Hcomplete.
  - split; [|split].
    + intros relPath diff Hin.
      destruct (Hsound _ _ Hin) as [Hold|(x & ? & ? & ? & ?)].
      * destruct (decide (rel = relPath)) as [<-|Hne].
        -- rewrite lookup_insert_eq in Hold. injection Hold as <-.
           right. exists entry, bc, lc. split; [apply list_elem_of_here|done].
        -- rewrite lookup_insert_ne in Hold by done. by left.
      * right. eexists _, _, _. split; [by apply list_elem_of_further|done].
    + intros relPath Hsome. apply Hgrow.
      destruct (decide (rel = relPath)) as [<-|Hne].
      * by rewrite lookup_insert_eq.
      * by rewrite lookup_insert_ne.
    + intros x relPath bc' lc' [->|Hx]%elem_of_cons Hd; [|by eapply Hcomplete].
      apply Hgrow.
      assert (relPath = rel) as ->.
      { destruct Hd as (_ & _ & (r1 & Hr1 & ->) & _).
        destruct Hdiff as (_ & _ & (r2 & Hr2 & ->) & _). congruence. }
      by rewrite lookup_insert_eq.
Qed.

Lemma DiffOutputWithBranch_resolved (e : Control) (branchName outputDir : string)
    tree :
  branchTree e branchName = Some tree →
  DiffOutputWithBranch e branchName outputDir
  = match DiffOutputWithBranch_walk tree outputDir (filepath_Walk outputDir) ∅
    with
    | (_, Some err) => OutReturns ∅ (Some (ErrWalk err))
    | (diffs, None) => OutReturns diffs None
    end.
Proof.
  unfold branchTree, DiffOutputWithBranch.
  destruct (repository e) as [r|]; [|done].
  destruct (Repository_Reference r _ true) as [ref|]; [|done].
  destruct (Repository_CommitObject r _) as [commit|]; [|done].
  destruct (Commit_Tree commit) as [tree'|]; [|done].
  by intros [= ->].
Qed.

(** X18: when [DiffOutputWithBranch] returns without an error, the branch
    was resolved to its tree and the map holds the files of the output
    directory that differ from the branch, and nothing else: every key is
    the path in the tree of a file under the directory whose content is
    not the content on the branch, with the diff of the branch content as
    "theirs" and the local content as "ours"; and every such file has its
    path among the keys.  A file the branch does not have, or has with
    the same content, has no entry of its own. *)
Theorem DiffOutputWithBranch_differences (e : Control)
    (branchName outputDir : string) (diffs : gmap string string) :
  DiffOutputWithBranch e branchName outputDir = OutReturns diffs None →
  ∃ tree,
    branchTree e branchName = Some tree
    ∧ (∀ relPath diff,
         diffs !! relPath = Some diff →
         ∃ entry branchContent localContent,
           entry ∈ filepath_Walk outputDir
           ∧ differs tree outputDir entry relPath branchContent localContent
           ∧ diff = generateDiff branchContent localContent)
    ∧ (∀ entry relPath branchContent localContent,
         entry ∈ filepath_Walk outputDir →
         differs tree outputDir entry relPath branchContent localContent →
         is_Some (diffs !! relPath)).
Proof.
  destruct (branchTree e branchName) as [tree|] eqn:Htree.
  - rewrite (DiffOutputWithBranch_resolved _ _ _ _ Htree).
    destruct (DiffOutputWithBranch_walk tree outputDir
                (filepath_Walk outputDir) ∅) as [diffs' [err|]] eqn:Hwalk;
      [done|].
    intros [= <-]. exists tree. split; [done|].
    destruct (DiffOutputWithBranch_walk_ok _ _ _ _ _ Hwalk)
      as (Hsound & _ & Hcomplete).
    split; [|done].
    intros relPath diff Hin.
    destruct (Hsound _ _ Hin) as [Hempty|?]; [|done].
    by rewrite lookup_empty in Hempty.
  - unfold branchTree in Htree. unfold DiffOutputWithBranch.
    destruct (repository e) as [r|]; [|done].
    destruct (Repository_Reference r _ true) as [ref|]; [|done].
    destruct (Repository_CommitObject r _) as [commit|]; [|done].
    by destruct (Commit_Tree commit) as [tree'|].
Qed.

(** X19: [DiffOutputWithBranch] does not test the repository either: on a
    handle that is not initialized it panics.  On an initialized handle it
    returns, and with an error it returns the nil map: the diffs collected
    before a failure of the walk are dropped. *)
Theorem DiffOutputWithBranch_all_or_nothing (e : Control)
    (branchName outputDir : string) :
  (IsInitialized e = false →
   DiffOutputWithBranch e branchName outputDir = OutPanics)
  ∧ (IsInitialized e = true →
     ∃ diffs err,
       DiffOutputWithBranch e branchName outputDir = OutReturns diffs err
       ∧ (err ≠ None → diffs = ∅)).
Proof.
  unfold IsInitialized, DiffOutputWithBranch.
  destruct (repository e) as [r|]; split; try done; intros _.
  destruct (Repository_Reference r _ true) as [ref|]; [|by eexists _, _].
  destruct (Repository_CommitObject r _) as [commit|]; [|by eexists _, _].
  destruct (Commit_Tree commit) as [tree|]; [|by eexists _, _].
  destruct (DiffOutputWithBranch_walk tree outputDir (filepath_Walk outputDir) ∅)
    as [diffs [err|]]; by eexists _, _.
Qed.

End output_facts.

Import (hints) DemoOutput.

(** X18 on the output directory of the small repository: [a.txt] alone
    differs from the branch [feature]. *)
Lemma DiffOutputWithBranch_differences_witness :
  DiffOutputWithBranch Demo.bound "feature" "output"
  = OutReturns {[ "a.txt" := "2" +:+ nl +:+ "3" +:+ nl ]} None
  ∧ ∃ tree,
      branchTree Demo.bound "feature" = Some tree
      ∧ ∀ relPath diff,
          ({[ "a.txt" := "2" +:+ nl +:+ "3" +:+ nl ]} : gmap string string)
            !! relPath = Some diff →
          ∃ entry branchContent localContent,
            entry ∈ filepath_Walk "output"
            ∧ differs tree "output" entry relPath branchContent localContent
            ∧ diff = generateDiff branchContent localContent.
Proof.
  split; [reflexivity|].
  destruct (DiffOutputWithBranch_differences (provider := Demo.provider)
              (output := DemoOutput.output) Demo.bound "feature" "output"
              {[ "a.txt" := "2" +:+ nl +:+ "3" +:+ nl ]})
    as (tree & Htree & Hsound & _); [reflexivity|].
  by exists tree.
Defined.

(** ** A line inserted at the top *)

Lemma conflictCount_shifted (first : string) (lines : list string) :
  (∀ i a b, (first :: lines) !! i = Some a →
            (first :: lines) !! S i = Some b → a ≠ b) →
  conflictCount lines (first :: lines) = length lines.
Proof.
  revert first.
  induction lines as [|l lines IH]; intros first Hadj; [done|].
  cbn [conflictCount length].
  rewrite (proj2 (String.eqb_neq l first)).
  2: { intros ->. by apply (Hadj 0 first first). }
  rewrite IH; [done|].
  intros i a b Ha Hb. by apply (Hadj (S i) a b).
Qed.

(** X20: the diff is positional.  When the target content is the base
    content with one line put before it, and no line of the target equals
    the line after it, every line of the base is in conflict: the output
    has five lines for each of them, the last target line, and the empty
    piece after the final newline. *)
Theorem generateDiff_shifted (branchContent localContent first : string) :
  Split localContent LF = first :: Split branchContent LF →
  (∀ i a b, Split localContent LF !! i = Some a →
            Split localContent LF !! S i = Some b → a ≠ b) →
  conflictCount (Split branchContent LF) (Split localContent LF)
  = length (Split branchContent LF)
  ∧ length (Split (generateDiff branchContent localContent) LF)
    = 5 * length (Split branchContent LF) + 2.
Proof.
  intros Hshift Hadj. rewrite Hshift in Hadj.
  pose proof (conflictCount_shifted first (Split branchContent LF) Hadj) as Hc.
  rewrite generateDiff_merge_lines, length_app, mergeLines_length.
  rewrite Hshift, Hc. cbn [length]. split; [done|]. lia.
Qed.

(** X20 on an instance: [a], [b] against [new], [a], [b]. *)
Lemma generateDiff_shifted_witness :
  length (Split (generateDiff ("a" +:+ nl +:+ "b")
                   ("new" +:+ nl +:+ "a" +:+ nl +:+ "b")) LF)
  = 12.
Proof.
  destruct (generateDiff_shifted ("a" +:+ nl +:+ "b")
              ("new" +:+ nl +:+ "a" +:+ nl +:+ "b") "new") as [_ H].
  - reflexivity.
  - intros [|[|[|i]]] a b; cbn; intros [= <-]; try intros [= <-]; done.
  - exact H.
Defined.

(** ** The older package, the handlers and the output directory on the
    small repository *)

(** X14 on the small repository, unbound and bound. *)
Lemma legacy_GetModifiedFiles_witness :
  legacy.GetModifiedFiles Demo.unbound "feature" "main"
  = Returns [] (Some ErrNotInitialized)
  ∧ legacy.GetModifiedFiles Demo.bound "feature" "main"
    = Returns ["a.txt"; "newfile.txt"] None.
Proof.
  destruct (legacy_GetModifiedFiles (provider := Demo.provider)
              Demo.unbound "feature" "main") as (_ & Hunbound & _).
  destruct (legacy_GetModifiedFiles (provider := Demo.provider)
              Demo.bound "feature" "main") as (_ & _ & Hbound).
  split; [by apply Hunbound | by rewrite Hbound].
Defined.

(** X15 on the host: no handle is bound. *)
Lemma getChanges_response_witness :
  ∃ w,
    getChanges Demo.unbound DemoHost.branchesQuery http.fresh = Responded w
    ∧ http.status w = Some 500
    ∧ http.body w = json_Marshal_ErrorStr noControlMessage.
Proof.
  destruct (getChanges_response (provider := Demo.provider)
              (json := DemoHost.json) Demo.unbound DemoHost.branchesQuery)
    as (w & Hrun & _ & [(_ & Hinit & _)|(Hst & message & Hbody & Hmsg & _)]);
    [discriminate|].
  exists w. split; [exact Hrun|]. split; [exact Hst|].
  by rewrite Hbody, (Hmsg eq_refl).
Defined.

(** X16 on the host: the diff of [a.txt]. *)
Lemma getDiff_response_witness :
  ∃ w,
    getDiff Demo.bound (<[ "file" := ["a.txt"] ]> DemoHost.branchesQuery)
      http.fresh
    = Responded w
    ∧ http.status w = Some 200
    ∧ http.body w = conflictBlock "2" "1".
Proof.
  destruct (getDiff_response (provider := Demo.provider)
              (json := DemoHost.json) Demo.bound
              (<[ "file" := ["a.txt"] ]> DemoHost.branchesQuery))
    as (w & Hrun & _).
  exists w. split; [exact Hrun|].
  assert (w = {| http.header := {[ "Content-Type" := "text/plain" ]};
                 http.sent := Some (200, {[ "Content-Type" := "text/plain" ]});
                 http.body := conflictBlock "2" "1" |}) as ->.
  { symmetry. injection Hrun as <-. reflexivity. }
  by split.
Defined.

(** X19 on the small repository. *)
Lemma DiffOutputWithBranch_all_or_nothing_witness :
  DiffOutputWithBranch Demo.unbound "feature" "output" = OutPanics
  ∧ ∃ diffs err,
      DiffOutputWithBranch Demo.bound "nobranch" "output"
      = OutReturns diffs err
      ∧ (err ≠ None → diffs = ∅).
Proof.
  destruct (DiffOutputWithBranch_all_or_nothing (provider := Demo.provider)
              (output := DemoOutput.output) Demo.unbound "feature" "output")
    as [Hunbound _].
  destruct (DiffOutputWithBranch_all_or_nothing (provider := Demo.provider)
              (output := DemoOutput.output) Demo.bound "nobranch" "output")
    as [_ Hbound].
  split; [by apply Hunbound | by apply Hbound].
Defined.
